(** * Customer-support mail agent: coordination core

    A shallow embedding of the coordination code of the customer-support
    agent (emailer.py, telegram_bot.py, main.py) and the properties of its
    thread reconstruction, in-flight registry, approval rendezvous and
    delivery retry loop.

    Python values are modelled as follows.
    - Exceptions: the inductive [exn]; a call that may raise returns a
      [result].  [is_Exception] tells the classes an [except Exception]
      clause catches from those only a bare [except] or [finally] sees.
    - Dictionaries keyed by strings ([active_tasks], [pending_actions]):
      stdpp's [gmap string _].
    - The network (IMAP, SMTP, Telegram) and the clock: oracles, records of
      functions that say what each call answers.
    - Strings: the UTF-8 bytes of the Python [str]; on such strings [in]
      is the byte-wise substring test.  [str.lower] follows the Unicode
      tables of the interpreter, which are no part of this program: it is
      an oracle.
    - Coroutines: functions from the answers received at their suspension
      points, together with the callbacks the poller runs while they are
      suspended.  The event loop runs one coroutine at a time and switches
      at an [await] only.  Every callback of the poller starts with an
      awaited network call, so a coroutine that has been woken resumes
      before the next callback reads or writes any state. *)

From Stdlib Require Import ZArith Ascii String.
From stdpp Require Import gmap strings list sorting.

Local Open Scope string_scope.
Local Open Scope Z_scope.

(** ** Python exceptions and fallible calls *)

Inductive exn : Type :=
| IndexError
| KeyError
| TypeError
| ValueError
| TimeoutError
| ConnectionError
| IMAPError
| SMTPServerDisconnected
| SMTPResponseException (smtp_code : Z)
| TelegramError
| KeyboardInterrupt
| CancelledError.

(** The classes below [Exception]; [KeyboardInterrupt] and
    [asyncio.CancelledError] derive from [BaseException] only. *)
Definition is_Exception (e : exn) : bool :=
  match e with
  | KeyboardInterrupt | CancelledError => false
  | _ => true
  end.

Inductive result (A : Type) : Type :=
| Ok (a : A)
| Raise (e : exn).
Arguments Ok {A} a.
Arguments Raise {A} e.

(** Sequencing stops at the first exception; with these instances stdpp's
    [x ← c; k] reads as Python's statement sequence. *)
#[global] Instance result_bind : MBind result :=
  fun A B k r => match r with Ok a => k a | Raise e => Raise e end.
#[global] Instance result_ret : MRet result := @Ok.

Definition is_Ok {A : Type} (r : result A) : bool :=
  match r with Ok _ => true | Raise _ => false end.

Fixpoint mapM {A B : Type} (f : A -> result B) (l : list A) : result (list B) :=
  match l with
  | [] => Ok []
  | x :: l' => y ← f x; ys ← mapM f l'; Ok (y :: ys)
  end.

(** [l[-1]]: the last element, [IndexError] on the empty list. *)
Definition py_last {A : Type} (l : list A) : result A :=
  match last l with
  | Some x => Ok x
  | None => Raise IndexError
  end.

(** ** Data model (emailer.py, class Email) *)

(** A [datetime]: [instant] counts microseconds, from the epoch in UTC for
    an offset-aware value and on the local wall clock for a naive one. *)
Record datetime : Type := { instant : Z; aware : bool }.

(** [datetime.now()] has no [tzinfo]: a naive value. *)
Definition datetime_now (clock : Z) : datetime :=
  {| instant := clock; aware := false |}.

(** [a < b] on datetimes: Python orders two aware values by their UTC
    instant, two naive ones by their fields, and raises [TypeError] when one
    is naive and the other aware. *)
Definition datetime_lt (a b : datetime) : result bool :=
  if Bool.eqb (aware a) (aware b) then Ok (instant a <? instant b)
  else Raise TypeError.

Record Email : Type := {
  id : string;
  to_address : string;
  from_address : string;
  subject : string;
  body : string;
  date : datetime;
  message_id : string;
  references : string
}.

(** Python truthiness of a string: non-empty. *)
Definition truthy (s : string) : bool :=
  match s with EmptyString => false | _ => true end.

(** ** emailer.py: thread reconstruction *)

Module Emailer.

(** What [_parse_email] reads from a fetched message: the headers, with the
    address part [parseaddr] extracts, and the text [_get_body] returns. *)
Record RawEmail : Type := {
  hdr_subject : string;
  hdr_from : string;
  hdr_to : string;
  hdr_date : string;
  hdr_message_id : string;
  hdr_references : string;
  text_body : string
}.

(** The mailbox and the clock.  Every IMAP call may raise.
    - [parsedate_to_datetime s]: [None] when it raises on [s]; the value is
      aware unless the zone of [s] is missing or -0000;
    - [clock i]: the reading of [datetime.now()] while message [i] is parsed;
    - [fetch_body i]: the message, [None] when the answer holds no data;
    - [fetch_thrid i]: the digits the X-GM-THRID pattern matches, if any;
    - [search_thrid t], [search_message_id r], [search_unseen]: the ids the
      search answers, in the order of the answer;
    - [fetch_references i]: the line of the REFERENCES header fetch, [None]
      when the answer holds no data. *)
Record mail_env : Type := {
  parsedate_to_datetime : string -> option datetime;
  clock : string -> Z;
  fetch_body : string -> result (option RawEmail);
  fetch_thrid : string -> result (option string);
  search_thrid : string -> result (list string);
  fetch_references : string -> result (option string);
  search_message_id : string -> result (list string);
  search_unseen : result (list string)
}.

Definition _parse_email (env : mail_env) (email_id : string)
  : result (option Email) :=
  msg_data ← fetch_body env email_id;
  match msg_data with
  | None => Ok None
  | Some email_message =>
      let date_str := hdr_date email_message in
      let now := datetime_now (clock env email_id) in
      let date :=
        if truthy date_str then
          match parsedate_to_datetime env date_str with
          | Some d => d
          | None => now
          end
        else now in
      Ok (Some {| id := email_id;
                  to_address := hdr_to email_message;
                  from_address := hdr_from email_message;
                  subject := hdr_subject email_message;
                  body := text_body email_message;
                  date := date;
                  message_id := hdr_message_id email_message;
                  references := hdr_references email_message |})
  end.

(** [thread.sort(key=lambda e: e.date)]: list.sort is a stable ascending
    sort that compares keys with [<] only and lets an exception of the
    comparison through.  Insertion from the right is such a sort: an
    element goes before the first one that is not smaller than it, so it
    stays ahead of the equal ones that followed it. *)
Fixpoint insert_by_date (x : Email) (l : list Email) : result (list Email) :=
  match l with
  | [] => Ok [x]
  | y :: l' =>
      smaller ← datetime_lt (date y) (date x);
      if (smaller : bool) then r ← insert_by_date x l'; Ok (y :: r)
      else Ok (x :: y :: l')
  end.

Fixpoint sort_by_date (l : list Email) : result (list Email) :=
  match l with
  | [] => Ok []
  | x :: l' => s ← sort_by_date l'; insert_by_date x s
  end.

(** [re.findall(r"<([^>]+)>", ref_line)]: one pass; [cur] is the text
    gathered since the last unmatched [<]. *)
Fixpoint findall_refs_from (cur : option string) (s : string) : list string :=
  match s with
  | EmptyString => []
  | String c s' =>
      match cur with
      | None =>
          if Ascii.eqb c "<" then findall_refs_from (Some "") s'
          else findall_refs_from None s'
      | Some acc =>
          if Ascii.eqb c ">" then
            (if truthy acc then [acc] else []) ++ findall_refs_from None s'
          else findall_refs_from (Some (acc +:+ String c "")) s'
      end
  end.

Definition findall_refs (ref_line : string) : list string :=
  findall_refs_from None ref_line.

(** The inner loop of the REFERENCES fallback: append each match that
    parses and whose id is not in the thread yet. *)
Fixpoint add_refs (env : mail_env) (ref_ids : list string) (thread : list Email)
  : result (list Email) :=
  match ref_ids with
  | [] => Ok thread
  | ref_id :: rest =>
      ref_email ← _parse_email env ref_id;
      match ref_email with
      | Some e =>
          if bool_decide (id e ∈ map id thread) then add_refs env rest thread
          else add_refs env rest (thread ++ [e])
      | None => add_refs env rest thread
      end
  end.

Fixpoint follow_refs (env : mail_env) (refs : list string) (thread : list Email)
  : result (list Email) :=
  match refs with
  | [] => Ok thread
  | ref :: rest =>
      ref_ids ← search_message_id env ref;
      thread' ← add_refs env ref_ids thread;
      follow_refs env rest thread'
  end.

(** The X-GM-THRID branch once the search answered [thread_ids]. *)
Definition gmail_thread (env : mail_env) (thread_ids : list string)
  : result (list Email) :=
  parsed ← mapM (_parse_email env) thread_ids;
  sort_by_date (omap (fun e : option Email => e) parsed).

Definition references_thread (env : mail_env) (email : Email)
  : result (list Email) :=
  ref_data ← fetch_references env (id email);
  match ref_data with
  | Some ref_line =>
      thread ← follow_refs env (findall_refs ref_line) [email];
      sort_by_date thread
  | None => Ok [email]
  end.

Definition _get_email_thread (env : mail_env) (email_id : string)
  : result (list Email) :=
  email ← _parse_email env email_id;
  match email with
  | None => Ok []
  | Some email =>
      thrid ← fetch_thrid env (id email);
      match thrid with
      | Some thread_id =>
          thread_ids ← search_thrid env thread_id;
          match thread_ids with
          | [] => references_thread env email
          | _ => gmail_thread env thread_ids
          end
      | None => references_thread env email
      end
  end.

Definition _get_unread_emails (env : mail_env) : result (list (list Email)) :=
  msg_nums ← search_unseen env;
  mapM (_get_email_thread env) msg_nums.

(** *** The IMAP connection *)

(** The mailboxes the program selects: INBOX and the three names it tries
    for the drafts folder ("[Gmail]/Drafts", "Drafts",
    "[Google Mail]/Drafts"). *)
Inductive mailbox : Type :=
| INBOX
| GmailDrafts
| Drafts
| GoogleMailDrafts.

#[global] Instance mailbox_eq_dec : EqDecision mailbox.
Proof. solve_decision. Defined.

(** [emailer.imap_conn] and, for every connection object (named by a
    number), the mailbox it has selected.  A connection without a mailbox
    here has none selected, or none that is known. *)
Record imap_state : Type := {
  imap_conn : option nat;
  selected : gmap nat mailbox
}.

(** The effect of [conn.select(m)] that answered [r] ([Ok true]: status
    OK).  With another status the connection is left without a selected
    mailbox; when the call raised, what is selected is not known. *)
Definition select (conn : nat) (m : mailbox) (r : result bool) (st : imap_state)
  : imap_state :=
  {| imap_conn := imap_conn st;
     selected := match r with
                 | Ok true => <[conn := m]> (selected st)
                 | _ => delete conn (selected st)
                 end |}.

(** What the server answers during one call of [_ensure_imap_connection]:
    the NOOP on the existing connection ([Ok true]: status OK), the
    constructor of the new connection, its login and its select of INBOX. *)
Record imap_env : Type := {
  imap_noop_r : result bool;
  IMAP4_SSL_r : result nat;
  login_r : result unit;
  select_inbox_r : result bool
}.

(** The outer except clause: [self.imap_conn = None], then [raise]. *)
Definition imap_failed (e : exn) (st : imap_state) : imap_state :=
  if is_Exception e then {| imap_conn := None; selected := selected st |}
  else st.

(** Lines 156-164: a new connection, logged in, with INBOX selected. *)
Definition new_imap_connection (env : imap_env) (st : imap_state)
  : imap_state * result nat :=
  match IMAP4_SSL_r env with
  | Raise e => (imap_failed e st, Raise e)
  | Ok c =>
      let st := {| imap_conn := Some c; selected := delete c (selected st) |} in
      match login_r env with
      | Raise e => (imap_failed e st, Raise e)
      | Ok _ =>
          match select_inbox_r env with
          | Raise e => (imap_failed e (select c INBOX (Raise e) st), Raise e)
          | Ok ok => (select c INBOX (Ok ok) st, Ok c)
          end
      end
  end.

(** [_ensure_imap_connection]: the existing connection when its NOOP
    answers OK; otherwise a new one.  A connection whose NOOP raised an
    [Exception] is logged out first, whatever the logout raises. *)
Definition _ensure_imap_connection (env : imap_env) (st : imap_state)
  : imap_state * result nat :=
  match imap_conn st with
  | Some c =>
      match imap_noop_r env with
      | Ok true => (st, Ok c)
      | Ok false => new_imap_connection env st
      | Raise e =>
          if is_Exception e then
            new_imap_connection env
              {| imap_conn := None; selected := delete c (selected st) |}
          else (st, Raise e)
      end
  | None => new_imap_connection env st
  end.

(** *** Emailer.process: sending with retries *)

(** What the SMTP side answers during one pass of the retry loop:
    [noop_r] the liveness probe, [reconnect_r] the [_connect_to_smtp] that
    follows a failed probe, [send_r] the [send_message] call, and
    [handler_reconnect_r] the [_connect_to_smtp] of an except clause. *)
Record smtp_attempt : Type := {
  noop_r : result unit;
  reconnect_r : result unit;
  send_r : result unit;
  handler_reconnect_r : result unit
}.

(** The body of the inner [try]: the probe sits under a bare [except], so
    whatever it raises leads to a reconnection. *)
Definition try_body (a : smtp_attempt) : result unit :=
  match noop_r a with
  | Ok _ => send_r a
  | Raise _ => _ ← reconnect_r a; send_r a
  end.

(** The locals of the loop, and what it did: the attempt numbers run, the
    exception each except clause caught, the delays slept and the attempts
    whose handler reconnected. *)
Record delivery_state : Type := {
  retry_delay : Z;
  success : bool;
  attempts : list nat;
  failures : list exn;
  sleeps : list Z;
  reconnects : list nat
}.

Definition begin_attempt (n : nat) (st : delivery_state) : delivery_state :=
  {| retry_delay := retry_delay st; success := success st;
     attempts := attempts st ++ [n]; failures := failures st;
     sleeps := sleeps st; reconnects := reconnects st |}.

Definition caught (e : exn) (st : delivery_state) : delivery_state :=
  {| retry_delay := retry_delay st; success := success st;
     attempts := attempts st; failures := failures st ++ [e];
     sleeps := sleeps st; reconnects := reconnects st |}.

(** [await asyncio.sleep(retry_delay); retry_delay *= 2] *)
Definition back_off (st : delivery_state) : delivery_state :=
  {| retry_delay := retry_delay st * 2; success := success st;
     attempts := attempts st; failures := failures st;
     sleeps := sleeps st ++ [retry_delay st]; reconnects := reconnects st |}.

Definition reconnected (n : nat) (st : delivery_state) : delivery_state :=
  {| retry_delay := retry_delay st; success := success st;
     attempts := attempts st; failures := failures st;
     sleeps := sleeps st; reconnects := reconnects st ++ [n] |}.

Definition succeeded (st : delivery_state) : delivery_state :=
  {| retry_delay := retry_delay st; success := true;
     attempts := attempts st; failures := failures st;
     sleeps := sleeps st; reconnects := reconnects st |}.

(** [for attempt in range(1, max_retries + 1)] over the attempt numbers
    still to run.  The second component is the exception that leaves the
    loop, if one does: a failed reconnection inside an except clause, or an
    exception that is not an [Exception]. *)
Fixpoint retry_loop (smtp : nat -> smtp_attempt) (todo : list nat)
    (st : delivery_state) : delivery_state * option exn :=
  match todo with
  | [] => (st, None)
  | attempt :: rest =>
      let a := smtp attempt in
      let st := begin_attempt attempt st in
      match try_body a with
      | Ok _ => (succeeded st, None)
      | Raise SMTPServerDisconnected =>
          let st := caught SMTPServerDisconnected st in
          match handler_reconnect_r a with
          | Ok _ => retry_loop smtp rest (reconnected attempt st)
          | Raise e => (st, Some e)
          end
      | Raise (SMTPResponseException smtp_code) =>
          let st := back_off (caught (SMTPResponseException smtp_code) st) in
          if smtp_code =? 451 then
            match handler_reconnect_r a with
            | Ok _ => retry_loop smtp rest (reconnected attempt st)
            | Raise e => (st, Some e)
            end
          else retry_loop smtp rest st
      | Raise e =>
          if is_Exception e then retry_loop smtp rest (back_off (caught e st))
          else (st, Some e)
      end
  end.

Definition max_retries : nat := 3.

Definition send_with_retry (smtp : nat -> smtp_attempt)
  : delivery_state * option exn :=
  retry_loop smtp (seq 1 max_retries)
    {| retry_delay := 2; success := false; attempts := []; failures := [];
       sleeps := []; reconnects := [] |}.

(** One pass of [for email_thread in unread_emails]: [respond_r] is what the
    awaited [respond] gives, [mark_as_read_r] the answer of the IMAP store. *)
Record message_env : Type := {
  respond_r : result (option Email);
  smtp : nat -> smtp_attempt;
  mark_as_read_r : result unit
}.

Inductive outcome : Type :=
| NoResponse
| Failed
| Sent.

(** What one pass did: the retry loop's record, the ids marked read, and the
    way the pass ended ([Raise]: the exception reached the handler of
    [process], which abandons the remaining threads). *)
Record message_run : Type := {
  delivery : option delivery_state;
  marked_read : list string;
  ended : result outcome
}.

Definition process_message (env : message_env) (mark_read : bool)
    (email_thread : list Email) : message_run :=
  match py_last email_thread with
  | Raise e => {| delivery := None; marked_read := []; ended := Raise e |}
  | Ok most_recent =>
      match respond_r env with
      | Raise e => {| delivery := None; marked_read := []; ended := Raise e |}
      | Ok None => {| delivery := None; marked_read := []; ended := Ok NoResponse |}
      | Ok (Some response) =>
          match send_with_retry (smtp env) with
          | (st, Some e) =>
              {| delivery := Some st; marked_read := []; ended := Raise e |}
          | (st, None) =>
              if negb (success st) then
                {| delivery := Some st; marked_read := []; ended := Ok Failed |}
              else if mark_read then
                match mark_as_read_r env with
                | Ok _ => {| delivery := Some st;
                            marked_read := [id most_recent]; ended := Ok Sent |}
                | Raise e => {| delivery := Some st; marked_read := [];
                               ended := Raise e |}
                end
              else {| delivery := Some st; marked_read := []; ended := Ok Sent |}
          end
      end
  end.

End Emailer.

(** ** telegram_bot.py: the approval rendezvous *)

Module TelegramBot.

(** An entry of [pending_actions].  [event] names the [asyncio.Event]
    object: the waiter holds the same object in a local variable, so the
    events live in a store of their own, by index. *)
Record PendingAction : Type := {
  email_thread : list Email;
  draft_email : Email;
  event : nat;
  pa_result : option Email
}.

(** A button press as the poller hands it to [_button_callback]: the parsed
    callback data, and what Telegram answers to the awaited calls
    ([query.answer()], the [edit_message_text] of the branch taken, and the
    [edit_message_text] of the except clause). *)
Record callback_query : Type := {
  cb_action : string;
  cb_email_id : string;
  answer_r : result unit;
  edit_r : result unit;
  error_edit_r : result unit
}.

(** The text a callback puts in place of the buttons. *)
Inductive reply : Type :=
| TestClicked
| WillBeSent
| SavedAsDraft
| Expired
| ErrorText (e : exn).

(** What happened, in order. *)
Inductive action : Type :=
| Notified (unique_id : string) (html : bool)
| NotifyFailed (unique_id : string) (html : bool) (e : exn)
| Registered (unique_id : string)
| Woken (unique_id : string)
| TimedOut (unique_id : string)
| Withdrawn (unique_id : string)
| WithdrawFailed (unique_id : string) (e : exn)
| Deregistered (unique_id : string)
| Replied (email_id : string) (r : reply)
| Decided (email_id : string) (decision : option Email)
| CallbackRaised (email_id : string) (e : exn).

Record bot : Type := {
  pending_actions : gmap string PendingAction;
  events : list bool;
  trace : list action
}.

Definition log (a : action) (b : bot) : bot :=
  {| pending_actions := pending_actions b; events := events b;
     trace := trace b ++ [a] |}.

Definition with_pending (p : gmap string PendingAction) (b : bot) : bot :=
  {| pending_actions := p; events := events b; trace := trace b |}.

(** [event.set()] *)
Definition set_event (ev : nat) (b : bot) : bot :=
  {| pending_actions := pending_actions b; events := <[ev := true]> (events b);
     trace := trace b |}.

(** [event.is_set()] *)
Definition is_set (ev : nat) (b : bot) : bool :=
  match events b !! ev with Some s => s | None => false end.

(** [self.pending_actions[email_id]["result"] = r] followed by
    [self.pending_actions[email_id]["event"].set()]: each subscript raises
    [KeyError] when the entry is gone. *)
Definition write_decision (email_id : string) (r : option Email) (b : bot)
  : result bot :=
  match pending_actions b !! email_id with
  | None => Raise KeyError
  | Some pa =>
      let pa' := {| email_thread := email_thread pa; draft_email := draft_email pa;
                    event := event pa; pa_result := r |} in
      Ok (log (Decided email_id r)
            (set_event (event pa)
               (with_pending (<[email_id := pa']> (pending_actions b)) b)))
  end.

(** The except clause of [_button_callback]: it shows the error; an
    exception that is not an [Exception], or one raised by this last edit,
    leaves the callback. *)
Definition fault (q : callback_query) (e : exn) (b : bot) : bot :=
  if is_Exception e then
    match error_edit_r q with
    | Ok _ => log (Replied (cb_email_id q) (ErrorText e)) b
    | Raise e' => log (CallbackRaised (cb_email_id q) e') b
    end
  else log (CallbackRaised (cb_email_id q) e) b.

(** [_button_callback] up to the [edit_message_text] of the send and draft
    branches, where it suspends holding the entry's draft in a local
    variable.  [Some] says a decision is about to be written. *)
Definition callback_lookup (q : callback_query) (b : bot)
  : bot * option (option Email * reply) :=
  match answer_r q with
  | Raise e => (log (CallbackRaised (cb_email_id q) e) b, None)
  | Ok _ =>
      if String.eqb (cb_action q) "test" then
        match edit_r q with
        | Ok _ => (log (Replied (cb_email_id q) TestClicked) b, None)
        | Raise e => (fault q e b, None)
        end
      else
        match pending_actions b !! cb_email_id q with
        | Some pa =>
            match py_last (email_thread pa) with
            | Raise e => (fault q e b, None)
            | Ok _ =>
                if String.eqb (cb_action q) "send" then
                  (b, Some (Some (draft_email pa), WillBeSent))
                else if String.eqb (cb_action q) "draft" then
                  (b, Some (None, SavedAsDraft))
                else (b, None)
            end
        | None =>
            match edit_r q with
            | Ok _ => (log (Replied (cb_email_id q) Expired) b, None)
            | Raise e => (fault q e b, None)
            end
        end
  end.

(** The rest of the send and draft branches, from the return of the edit. *)
Definition callback_commit (q : callback_query) (c : option Email * reply)
    (b : bot) : bot :=
  match edit_r q with
  | Raise e => fault q e b
  | Ok _ =>
      let b := log (Replied (cb_email_id q) (snd c)) b in
      match write_decision (cb_email_id q) (fst c) b with
      | Ok b' => b'
      | Raise e => fault q e b
      end
  end.

(** A callback that nothing interleaves with. *)
Definition _button_callback (q : callback_query) (b : bot) : bot :=
  match callback_lookup q b with
  | (b1, Some c) => callback_commit q c b1
  | (b1, None) => b1
  end.

(** The poller handles its updates one after the other. *)
Definition run_callbacks (qs : list callback_query) (b : bot) : bot :=
  foldl (fun b q => _button_callback q b) b qs.

(** The presses handled while a coroutine waits on the event [ev].  The
    callback that sets the event runs to its end (nothing is awaited after
    [event.set()]); the next one suspends in [query.answer()] before it
    looks at [pending_actions], and the waiter, woken by the event, resumes
    first.  The result is the state in which the wait ends and the presses
    the poller has still to handle. *)
Fixpoint run_until_set (ev : nat) (qs : list callback_query) (b : bot)
  : bot * list callback_query :=
  match qs with
  | [] => (b, [])
  | q :: rest =>
      if is_set ev b then (b, qs)
      else run_until_set ev rest (_button_callback q b)
  end.

(** What the channel does during one call of [notify_and_wait_for_action]:
    the answers to the awaited calls, and the button presses the poller
    handles while the coroutine is suspended in each of them.
    [now_timestamp] is [str(datetime.now().timestamp())].  [during_wait]
    lists the presses that arrive from the moment the coroutine suspends on
    the event: the wait ends with the first of them that sets the event,
    and in a timeout when none does; those that follow the one that set
    the event are handled once the waiter has returned. *)
Record approval_env : Type := {
  now_timestamp : string;
  send_html_r : result nat;
  during_send_html : list callback_query;
  send_plain_r : result nat;
  during_send_plain : list callback_query;
  during_wait : list callback_query;
  withdraw_r : result unit;
  during_withdraw : list callback_query
}.

(** [most_recent.id or str(datetime.now().timestamp())] *)
Definition unique_id_of (env : approval_env) (most_recent : Email) : string :=
  if truthy (id most_recent) then id most_recent else now_timestamp env.

(** Lines 283-309: the HTML send and its plain-text retry. *)
Definition notify (env : approval_env) (unique_id : string) (b : bot)
  : bot * result nat :=
  match send_html_r env with
  | Ok sent_message =>
      (run_callbacks (during_send_html env) (log (Notified unique_id true) b),
       Ok sent_message)
  | Raise e =>
      let b := run_callbacks (during_send_html env)
                 (log (NotifyFailed unique_id true e) b) in
      if is_Exception e then
        match send_plain_r env with
        | Ok sent_message =>
            (run_callbacks (during_send_plain env)
               (log (Notified unique_id false) b), Ok sent_message)
        | Raise e' =>
            (run_callbacks (during_send_plain env)
               (log (NotifyFailed unique_id false e') b), Raise e')
        end
      else (b, Raise e)
  end.

(** Lines 311-321: a fresh event and the entry, with nothing awaited. *)
Definition register (unique_id : string) (thread : list Email) (draft : Email)
    (b : bot) : bot * nat :=
  let ev := length (events b) in
  (log (Registered unique_id)
     {| pending_actions :=
          <[unique_id := {| email_thread := thread; draft_email := draft;
                            event := ev; pa_result := None |}]> (pending_actions b);
        events := events b ++ [false];
        trace := trace b |}, ev).

(** [del self.pending_actions[unique_id]] *)
Definition deregister (unique_id : string) (b : bot) : result bot :=
  match pending_actions b !! unique_id with
  | Some _ =>
      Ok (log (Deregistered unique_id)
            (with_pending (delete unique_id (pending_actions b)) b))
  | None => Raise KeyError
  end.

(** Lines 323-341: the coroutine suspends on the event; the presses that
    arrive meanwhile are handled until one sets the event; then it resumes,
    with the event set or with [asyncio.TimeoutError].  From the wake-up
    to the [return] nothing is awaited: the result is read and the entry
    deleted before the poller handles the presses that are left.  Only the
    timeout is caught. *)
Definition wait_for_action (env : approval_env) (unique_id : string) (ev : nat)
    (b : bot) : bot * result (option Email) :=
  let '(b, late) := run_until_set ev (during_wait env) b in
  if is_set ev b then
    let b := log (Woken unique_id) b in
    match pending_actions b !! unique_id with
    | None => (run_callbacks late b, Raise KeyError)
    | Some pa =>
        match deregister unique_id b with
        | Ok b' => (run_callbacks late b', Ok (pa_result pa))
        | Raise e => (run_callbacks late b, Raise e)
        end
    end
  else
    let b := log (TimedOut unique_id) b in
    match withdraw_r env with
    | Raise e =>
        (run_callbacks (during_withdraw env) (log (WithdrawFailed unique_id e) b),
         Raise e)
    | Ok _ =>
        let b := run_callbacks (during_withdraw env) (log (Withdrawn unique_id) b) in
        match deregister unique_id b with
        | Ok b' => (b', Ok None)
        | Raise e => (b, Raise e)
        end
    end.

Definition notify_and_wait_for_action (env : approval_env)
    (email_thread : list Email) (draft_email : Email) (b : bot)
  : bot * result (option Email) :=
  match last email_thread with
  | None => (b, Ok None)
  | Some most_recent =>
      let unique_id := unique_id_of env most_recent in
      match notify env unique_id b with
      | (b1, Raise e) => (b1, Raise e)
      | (b1, Ok sent_message) =>
          let '(b2, ev) := register unique_id email_thread draft_email b1 in
          wait_for_action env unique_id ev b2
      end
  end.

End TelegramBot.

(** ** main.py: the registry of active tasks, the handling task, the poll loop *)

Module Main.

(** [needle in s] *)
Fixpoint contains (needle s : string) : bool :=
  String.prefix needle s
  || match s with
     | EmptyString => false
     | String _ s' => contains needle s'
     end.

Definition unsure (str : string) : bool :=
  contains "not sure" str
  || contains "unsure" str
  || contains "don't know" str
  || contains "dont know" str
  || contains "do not know" str.

(** The module state of main.py and what the outside world has received.
    A value of [active_tasks] stands for the [asyncio.Task] running
    [handle_thread] on that thread.
    - [outbox]: the replies handed to [send_message] that went through;
    - [drafts]: the drafts the server accepted, each with the mailbox it
      was appended to;
    - [seen]: the STORE commands of [mark_as_read] the server answered OK,
      each with the mailbox selected on the connection it was sent over
      (when one is known to be) and the sequence number it named;
    - [imap]: the connections of the [emailer] object, which the polls,
      [save_draft] and the handling tasks share. *)
Record world : Type := {
  active_tasks : gmap string (list Email);
  bot : TelegramBot.bot;
  outbox : list Email;
  drafts : list (Emailer.mailbox * Email);
  seen : list (option Emailer.mailbox * string);
  imap : Emailer.imap_state
}.

Definition with_tasks (t : gmap string (list Email)) (w : world) : world :=
  {| active_tasks := t; bot := bot w; outbox := outbox w; drafts := drafts w;
     seen := seen w; imap := imap w |}.

Definition with_bot (b : TelegramBot.bot) (w : world) : world :=
  {| active_tasks := active_tasks w; bot := b; outbox := outbox w;
     drafts := drafts w; seen := seen w; imap := imap w |}.

Definition with_imap (st : Emailer.imap_state) (w : world) : world :=
  {| active_tasks := active_tasks w; bot := bot w; outbox := outbox w;
     drafts := drafts w; seen := seen w; imap := st |}.

(** Lines 305-310: [if email_id in active_tasks: continue], else the task
    is created and stored under [email_id]. *)
Definition try_acquire (email_id : string) (task : list Email)
    (tasks : gmap string (list Email)) : gmap string (list Email) * bool :=
  if bool_decide (email_id ∈ dom tasks) then (tasks, false)
  else (<[email_id := task]> tasks, true).

(** Line 282: [active_tasks.pop(email_id, None)] *)
Definition release (email_id : string) (tasks : gmap string (list Email))
  : gmap string (list Email) :=
  delete email_id tasks.

(** What [respond] meets: the text the agent returns ([agent_r], after
    [text_message_outputs]), [str.lower], the markdown renderer, the
    default date of the [Email] class (read once, when the class is
    defined), the channel ([None]: no bot configured) and, for
    [save_draft], the answers of the IMAP server: to
    [_ensure_imap_connection], to the select of each folder ([Ok true]:
    status OK), to the select of INBOX in the except clause, and to the
    append. *)
Record respond_env : Type := {
  agent_r : result string;
  lower : string -> string;
  markdown : string -> string;
  import_time : Z;
  telegram_bot : option TelegramBot.approval_env;
  draft_imap : Emailer.imap_env;
  select_r : Emailer.mailbox -> result bool;
  select_fallback_r : result bool;
  append_r : result bool
}.

Definition draft_marker (env : respond_env) : Email :=
  {| id := "DRAFT_MARKER"; to_address := "DRAFT_MARKER";
     from_address := "DRAFT_MARKER"; subject := "DRAFT_MARKER";
     body := "DRAFT_MARKER"; date := datetime_now (import_time env);
     message_id := ""; references := "" |}.

(** Lines 218-236: the folder the draft goes to, the first of the three
    names whose select answers OK, INBOX otherwise; every select acts on
    the connection [imap_conn]. *)
Definition select_drafts_folder (env : respond_env) (imap_conn : nat)
    (st : Emailer.imap_state) : Emailer.imap_state * result Emailer.mailbox :=
  let tried : Emailer.imap_state * result Emailer.mailbox :=
    match select_r env Emailer.GmailDrafts with
    | Raise e => (Emailer.select imap_conn Emailer.GmailDrafts (Raise e) st, Raise e)
    | Ok true => (Emailer.select imap_conn Emailer.GmailDrafts (Ok true) st,
                  Ok Emailer.GmailDrafts)
    | Ok false =>
        let st := Emailer.select imap_conn Emailer.GmailDrafts (Ok false) st in
        match select_r env Emailer.Drafts with
        | Raise e => (Emailer.select imap_conn Emailer.Drafts (Raise e) st, Raise e)
        | Ok true => (Emailer.select imap_conn Emailer.Drafts (Ok true) st,
                      Ok Emailer.Drafts)
        | Ok false =>
            let st := Emailer.select imap_conn Emailer.Drafts (Ok false) st in
            match select_r env Emailer.GoogleMailDrafts with
            | Raise e =>
                (Emailer.select imap_conn Emailer.GoogleMailDrafts (Raise e) st,
                 Raise e)
            | Ok true =>
                (Emailer.select imap_conn Emailer.GoogleMailDrafts (Ok true) st,
                 Ok Emailer.GoogleMailDrafts)
            | Ok false =>
                let st := Emailer.select imap_conn Emailer.GoogleMailDrafts
                            (Ok false) st in
                match select_r env Emailer.INBOX with
                | Raise e =>
                    (Emailer.select imap_conn Emailer.INBOX (Raise e) st, Raise e)
                | Ok ok =>
                    (Emailer.select imap_conn Emailer.INBOX (Ok ok) st,
                     Ok Emailer.INBOX)
                end
            end
        end
    end in
  match tried with
  | (st, Ok drafts_folder) => (st, Ok drafts_folder)
  | (st, Raise e) =>
      if is_Exception e then
        match select_fallback_r env with
        | Raise e' => (Emailer.select imap_conn Emailer.INBOX (Raise e') st, Raise e')
        | Ok ok => (Emailer.select imap_conn Emailer.INBOX (Ok ok) st,
                    Ok Emailer.INBOX)
        end
      else (st, Raise e)
  end.

Definition saved (drafts_folder : Emailer.mailbox) (draft_email : Email)
    (w : world) : world :=
  {| active_tasks := active_tasks w; bot := bot w; outbox := outbox w;
     drafts := drafts w ++ [(drafts_folder, draft_email)]; seen := seen w;
     imap := imap w |}.

(** The [try] block of [save_draft]. *)
Definition save_draft_try (env : respond_env) (draft_email : Email) (w : world)
  : world * result unit :=
  match Emailer._ensure_imap_connection (draft_imap env) (imap w) with
  | (st, Raise e) => (with_imap st w, Raise e)
  | (st, Ok imap_conn) =>
      match select_drafts_folder env imap_conn st with
      | (st, Raise e) => (with_imap st w, Raise e)
      | (st, Ok drafts_folder) =>
          let w := with_imap st w in
          match append_r env with
          | Raise e => (w, Raise e)
          | Ok true => (saved drafts_folder draft_email w, Ok ())
          | Ok false => (w, Ok ())
          end
      end
  end.

(** [save_draft] catches every [Exception]; it never selects INBOX again
    once a drafts folder is selected. *)
Definition save_draft (env : respond_env) (draft_email : Email) (w : world)
  : world * result unit :=
  match save_draft_try env draft_email w with
  | (w, Ok _) => (w, Ok ())
  | (w, Raise e) => if is_Exception e then (w, Ok ()) else (w, Raise e)
  end.

(** Lines 150-159: the draft built from the agent's text. *)
Definition draft_reply (env : respond_env) (most_recent : Email)
    (body_md : string) : Email :=
  {| id := ""; to_address := from_address most_recent;
     from_address := to_address most_recent;
     subject := subject most_recent; body := markdown env body_md;
     date := datetime_now (import_time env);
     message_id := ""; references := "" |}.

Definition respond (env : respond_env) (thread : list Email) (w : world)
  : world * result (option Email) :=
  match py_last thread with
  | Raise e => (w, Raise e)
  | Ok most_recent =>
      match agent_r env with
      | Raise e => (w, Raise e)
      | Ok body_md =>
          if unsure (lower env body_md) then (w, Ok None)
          else
            let draft_email := draft_reply env most_recent body_md in
            match telegram_bot env with
            | None => (w, Ok (Some draft_email))
            | Some channel =>
                match TelegramBot.notify_and_wait_for_action channel thread
                        draft_email (bot w) with
                | (b, Ok (Some result)) => (with_bot b w, Ok (Some result))
                | (b, Ok None) =>
                    match save_draft env draft_email (with_bot b w) with
                    | (w, Ok _) => (w, Ok (Some (draft_marker env)))
                    | (w, Raise e) =>
                        if is_Exception e then (w, Ok (Some draft_email))
                        else (w, Raise e)
                    end
                | (b, Raise e) =>
                    if is_Exception e then (with_bot b w, Ok (Some draft_email))
                    else (with_bot b w, Raise e)
                end
            end
      end
  end.

(** What one handling task meets: [respond]'s environment, the
    connection the task was created with (the [imap_conn] argument of
    [handle_thread]), and the answers of the SMTP connection, the send, the
    quit and the STORE of [mark_as_read] ([Ok true]: status OK;
    [mark_as_read] does not look at the status). *)
Record task_env : Type := {
  responding : respond_env;
  imap_conn : nat;
  connect_r : result unit;
  send_message_r : result unit;
  quit_r : result unit;
  store_r : result bool
}.

Definition sent (response : Email) (w : world) : world :=
  {| active_tasks := active_tasks w; bot := bot w;
     outbox := outbox w ++ [response]; drafts := drafts w; seen := seen w;
     imap := imap w |}.

(** [emailer.mark_as_read(imap_conn, email_id)] returned: a STORE that was
    answered OK set the flag of message number [email_id] of the mailbox
    [imap_conn] has selected. *)
Definition marked_as_read (imap_conn : nat) (email_id : string) (ok : bool)
    (w : world) : world :=
  if ok then
    {| active_tasks := active_tasks w; bot := bot w; outbox := outbox w;
       drafts := drafts w;
       seen := seen w
               ++ [(Emailer.selected (imap w) !! imap_conn, email_id)];
       imap := imap w |}
  else w.

(** The [try] block of [handle_thread]. *)
Definition handle_thread_try (env : task_env) (most_recent : Email)
    (email_thread : list Email) (w : world) : world * result unit :=
  match respond (responding env) email_thread w with
  | (w, Raise e) => (w, Raise e)
  | (w, Ok None) => (w, Ok ())
  | (w, Ok (Some response)) =>
      if String.eqb (id response) "DRAFT_MARKER" then (w, Ok ())
      else
        match connect_r env with
        | Raise e => (w, Raise e)
        | Ok _ =>
            match send_message_r env with
            | Raise e => (w, Raise e)
            | Ok _ =>
                let w := sent response w in
                match quit_r env with
                | Raise e => (w, Raise e)
                | Ok _ =>
                    match store_r env with
                    | Raise e => (w, Raise e)
                    | Ok ok =>
                        (marked_as_read (imap_conn env) (id most_recent) ok w,
                         Ok ())
                    end
                end
            end
        end
  end.

(** [handle_thread]: the second component is the exception that leaves the
    coroutine, if one does.  [email_thread[-1]] sits before the [try]. *)
Definition handle_thread (env : task_env) (email_thread : list Email) (w : world)
  : world * option exn :=
  match py_last email_thread with
  | Raise e => (w, Some e)
  | Ok most_recent =>
      let email_id := id most_recent in
      let '(w1, r) := handle_thread_try env most_recent email_thread w in
      let w2 := with_tasks (release email_id (active_tasks w1)) w1 in
      match r with
      | Ok _ => (w2, None)
      | Raise e => if is_Exception e then (w2, None) else (w2, Some e)
      end
  end.

(** The [for thread in unread_threads] loop. *)
Fixpoint spawn_tasks (unread_threads : list (list Email)) (w : world)
  : world * result unit :=
  match unread_threads with
  | [] => (w, Ok ())
  | thread :: rest =>
      match py_last thread with
      | Raise e => (w, Raise e)
      | Ok most_recent =>
          let email_id := id most_recent in
          spawn_tasks rest
            (with_tasks (fst (try_acquire email_id thread (active_tasks w))) w)
      end
  end.

(** One poll: what the server answers to [_ensure_imap_connection] and to
    the select of INBOX that opens [_get_unread_emails] (line 368,
    [Ok true]: status OK), the mailbox, and the tasks that run to their end
    during the sleep that follows, each named by its key and given what it
    meets. *)
Record cycle_env : Type := {
  imap_answers : Emailer.imap_env;
  select_unread_r : result bool;
  mail : Emailer.mail_env;
  finishing : list (string * task_env)
}.

Definition process_with_draft_handling (c : cycle_env) (w : world)
  : world * result unit :=
  match Emailer._ensure_imap_connection (imap_answers c) (imap w) with
  | (st, Raise e) => (with_imap st w, Raise e)
  | (st, Ok imap_conn) =>
      match select_unread_r c with
      | Raise e =>
          (with_imap (Emailer.select imap_conn Emailer.INBOX (Raise e) st) w,
           Raise e)
      | Ok ok =>
          let w := with_imap (Emailer.select imap_conn Emailer.INBOX (Ok ok) st)
                     w in
          match Emailer._get_unread_emails (mail c) with
          | Raise e => (w, Raise e)
          | Ok unread_threads => spawn_tasks unread_threads w
          end
      end
  end.

(** A task is an [asyncio.Task] of its own: what leaves [handle_thread]
    stays in the task object. *)
Definition finish_task (w : world) (f : string * task_env) : world :=
  match active_tasks w !! fst f with
  | Some thread => fst (handle_thread (snd f) thread w)
  | None => w
  end.

(** How [main] stands after the polls it was given: still in its loop, or
    out of it with the exception that ended it. *)
Record main_run : Type := {
  final : world;
  polls : nat;
  ended_by : option exn
}.

(** Lines 352-363: [while True] sits inside the [try]; both except clauses
    and the [finally] lie after the loop. *)
Fixpoint main (cycles : list cycle_env) (w : world) : main_run :=
  match cycles with
  | [] => {| final := w; polls := 0; ended_by := None |}
  | c :: rest =>
      match process_with_draft_handling c w with
      | (w1, Raise e) => {| final := w1; polls := 1; ended_by := Some e |}
      | (w1, Ok _) =>
          let r := main rest (foldl finish_task w1 (finishing c)) in
          {| final := final r; polls := S (polls r); ended_by := ended_by r |}
      end
  end.

End Main.

(** * Notions used by the statements *)

(** ** Order and kinds of dates *)

Definition date_le (a b : Email) : Prop :=
  instant (date a) <= instant (date b).

(** All dates naive ([k = false]) or all aware ([k = true]). *)
Definition same_kind (k : bool) (l : list Email) : Prop :=
  Forall (fun e => aware (date e) = k) l.

Definition dated (t : Z) (e : Email) : Prop := instant (date e) = t.

#[global] Instance dated_dec t e : Decision (dated t e).
Proof. unfold dated. apply _. Defined.

(** ** A mailbox with two messages in one Gmail thread

    Message 1 carries a Date header with a numeric zone; message 2, the
    unread one, carries none. *)

Module Mailbox.
Import Emailer.

Definition parsedate (s : string) : option datetime :=
  if String.eqb s "Mon, 01 Jan 2024 10:00:00 +0000"
  then Some {| instant := 1704103200000000; aware := true |}
  else None.

Definition raw1 : RawEmail :=
  {| hdr_subject := "Help"; hdr_from := "alice@x.com"; hdr_to := "support@x.com";
     hdr_date := "Mon, 01 Jan 2024 10:00:00 +0000";
     hdr_message_id := "<m1@x.com>"; hdr_references := "";
     text_body := "How do I reset my password?" |}.

Definition raw2 : RawEmail :=
  {| hdr_subject := "Re: Help"; hdr_from := "alice@x.com";
     hdr_to := "support@x.com"; hdr_date := "";
     hdr_message_id := "<m2@x.com>"; hdr_references := "<m1@x.com>";
     text_body := "Any news?" |}.

Definition two_messages : mail_env :=
  {| parsedate_to_datetime := parsedate;
     clock := fun _ => 1704200000000000;
     fetch_body := fun i =>
       if String.eqb i "1" then Ok (Some raw1)
       else if String.eqb i "2" then Ok (Some raw2)
       else Ok None;
     fetch_thrid := fun _ => Ok (Some "1787");
     search_thrid := fun _ => Ok ["1"; "2"];
     fetch_references := fun _ => Ok None;
     search_message_id := fun _ => Ok [];
     search_unseen := Ok ["2"] |}.

(** The same mailbox when the fetch of the unread message answers no data
    (the message was expunged between the search and the fetch). *)
Definition vanished : mail_env :=
  {| parsedate_to_datetime := parsedate;
     clock := fun _ => 1704200000000000;
     fetch_body := fun _ => Ok None;
     fetch_thrid := fun _ => Ok None;
     search_thrid := fun _ => Ok [];
     fetch_references := fun _ => Ok None;
     search_message_id := fun _ => Ok [];
     search_unseen := Ok ["2"] |}.

(** A mailbox with nothing unread. *)
Definition quiet : mail_env :=
  {| parsedate_to_datetime := parsedate;
     clock := fun _ => 1704200000000000;
     fetch_body := fun _ => Ok None;
     fetch_thrid := fun _ => Ok None;
     search_thrid := fun _ => Ok [];
     fetch_references := fun _ => Ok None;
     search_message_id := fun _ => Ok [];
     search_unseen := Ok [] |}.

(** The connection drops while the unread message is fetched. *)
Definition dropped : mail_env :=
  {| parsedate_to_datetime := parsedate;
     clock := fun _ => 1704200000000000;
     fetch_body := fun _ => Raise IMAPError;
     fetch_thrid := fun _ => Ok None;
     search_thrid := fun _ => Ok [];
     fetch_references := fun _ => Ok None;
     search_message_id := fun _ => Ok [];
     search_unseen := Ok ["2"] |}.

End Mailbox.

(** ** Button presses and the pending entries *)

Module Approval.
Import TelegramBot.

(** An entry with another decision in its slot. *)
Definition decided (pa : PendingAction) (d : option Email) : PendingAction :=
  {| email_thread := email_thread pa; draft_email := draft_email pa;
     event := event pa; pa_result := d |}.

(** Every entry names an event of the store. *)
Definition well_formed (b : bot) : Prop :=
  forall k pa, pending_actions b !! k = Some pa ->
               (event pa < length (events b))%nat.



(** Actions a callback logs. *)
Definition from_callback (a : action) : Prop :=
  match a with
  | Replied _ _ | Decided _ _ | CallbackRaised _ _ => True
  | _ => False
  end.

(** What handling the press [q] may turn [b] into: the trace grows by
    callback actions, and either nothing else changes or a decision lands
    in the entry of [q]'s key and that entry's event is set. *)
Definition effect (q : callback_query) (b b' : bot) : Prop :=
  (exists t, trace b' = (trace b ++ t)%list /\ Forall from_callback t)
  /\ ((pending_actions b' = pending_actions b /\ events b' = events b)
      \/ exists pa d,
           pending_actions b !! cb_email_id q = Some pa
           /\ pending_actions b'
              = <[cb_email_id q := decided pa d]> (pending_actions b)
           /\ events b' = <[event pa := true]> (events b)).



(** The entry of [unique_id] is [pa]; it waits on the event [ev], which
    is unset and which no other entry names. *)
Definition waiting (unique_id : string) (pa : PendingAction) (ev : nat)
    (b : bot) : Prop :=
  pending_actions b !! unique_id = Some pa
  /\ event pa = ev
  /\ events b !! ev = Some false
  /\ forall k pa', k <> unique_id -> pending_actions b !! k = Some pa' ->
                   event pa' <> ev.

Definition press (choice email_id : string) : callback_query :=
  {| cb_action := choice; cb_email_id := email_id; answer_r := Ok ();
     edit_r := Ok (); error_edit_r := Ok () |}.

(** An unread message, the draft that answers it, and channels that
    differ in the presses they deliver and in the fate of the withdrawal. *)
Definition question : Email :=
  {| id := "2"; to_address := "support@x.com"; from_address := "alice@x.com";
     subject := "Help"; body := "How do I reset my password?";
     date := {| instant := 1704103200000000; aware := true |};
     message_id := "<m1@x.com>"; references := "" |}.

Definition draft : Email :=
  {| id := ""; to_address := "alice@x.com"; from_address := "support@x.com";
     subject := "Help"; body := "<p>Click Forgot Password.</p>";
     date := {| instant := 1704000000000000; aware := false |};
     message_id := ""; references := "" |}.

Definition fresh : bot := {| pending_actions := ∅; events := []; trace := [] |}.

Definition channel (early waiting : list callback_query) (withdraw : result unit)
  : approval_env :=
  {| now_timestamp := "1704200000.0";
     send_html_r := Ok 41%nat;
     during_send_html := early;
     send_plain_r := Ok 42%nat;
     during_send_plain := [];
     during_wait := waiting;
     withdraw_r := withdraw;
     during_withdraw := [] |}.

(** "Send" is pressed while the send of the notification is still awaited. *)
Definition pressed_early : approval_env := channel [press "send" "2"] [] (Ok ()).


(** Nothing is pressed; the buttons are withdrawn, or cannot be. *)
Definition silent : approval_env := channel [] [] (Ok ()).
Definition silent_stuck : approval_env := channel [] [] (Raise TelegramError).

End Approval.

(** ** Failures and delays of the retry loop *)

Module Delivery.
Import Emailer.

(** The except clauses that sleep: all but the one for a disconnect. *)
Definition backs_off (e : exn) : bool :=
  match e with
  | SMTPServerDisconnected => false
  | _ => true
  end.

(** [2; 4; 8; ...], [n] delays. *)
Definition doubling (n : nat) : list Z :=
  (fun i : nat => 2 * 2 ^ Z.of_nat i) <$> seq 0 n.

(** What the loop keeps true of its delay and of its record. *)
Definition in_step (st : delivery_state) : Prop :=
  retry_delay st = 2 * 2 ^ Z.of_nat (length (sleeps st))
  /\ sleeps st = doubling (length (sleeps st))
  /\ length (sleeps st) = length (List.filter backs_off (failures st)).

(** The attempt raises and its except clause runs to its end: the
    exception is an [Exception] and the reconnection the clause asks for,
    if it asks for one, goes through. *)
Definition fails (a : smtp_attempt) : bool :=
  match try_body a with
  | Ok _ => false
  | Raise SMTPServerDisconnected => is_Ok (handler_reconnect_r a)
  | Raise (SMTPResponseException smtp_code) =>
      if smtp_code =? 451 then is_Ok (handler_reconnect_r a) else true
  | Raise e => is_Exception e
  end.

(** The attempt fails in the rate/timeout class: the server answers 451
    and the reconnection of that except clause goes through. *)
Definition times_out (a : smtp_attempt) : Prop :=
  try_body a = Raise (SMTPResponseException 451)
  /\ handler_reconnect_r a = Ok ().

(** An SMTP side that fails each attempt as listed and lets every
    reconnection through; past the list, sends succeed. *)
Definition failing (script : list exn) (attempt : nat) : smtp_attempt :=
  {| noop_r := Ok (); reconnect_r := Ok ();
     send_r := match script !! (attempt - 1)%nat with
               | Some e => Raise e
               | None => Ok ()
               end;
     handler_reconnect_r := Ok () |}.

Definition reply_to_alice : Email :=
  {| id := ""; to_address := "alice@x.com"; from_address := "support@x.com";
     subject := "Help"; body := "<p>Click Forgot Password.</p>";
     date := {| instant := 1704000000000000; aware := false |};
     message_id := ""; references := "" |}.

Definition unread : Email :=
  {| id := "2"; to_address := "support@x.com"; from_address := "alice@x.com";
     subject := "Help"; body := "How do I reset my password?";
     date := {| instant := 1704103200000000; aware := true |};
     message_id := "<m1@x.com>"; references := "" |}.

Definition replying (script : list exn) : message_env :=
  {| respond_r := Ok (Some reply_to_alice); smtp := failing script;
     mark_as_read_r := Ok () |}.

End Delivery.

(** ** Sequences of registry operations *)

Module Registry.
Import Main.

Inductive registry_op : Type :=
| Acquire (k : string) (task : list Email)
| Release (k : string).

(** Runs the operations in order; the log holds, for each acquire attempt,
    its key and whether it succeeded. *)
Fixpoint run_ops (ops : list registry_op) (tasks : gmap string (list Email))
  : gmap string (list Email) * list (string * bool) :=
  match ops with
  | [] => (tasks, [])
  | Acquire k task :: ops' =>
      let '(tasks1, ok) := try_acquire k task tasks in
      let '(tasks2, log) := run_ops ops' tasks1 in
      (tasks2, (k, ok) :: log)
  | Release k :: ops' => run_ops ops' (release k tasks)
  end.

Definition is_acquire (k : string) (op : registry_op) : bool :=
  match op with
  | Acquire k' _ => bool_decide (k' = k)
  | Release _ => false
  end.

Definition is_release (k : string) (op : registry_op) : bool :=
  match op with
  | Acquire _ _ => false
  | Release k' => bool_decide (k' = k)
  end.

(** The outcomes of the attempts on [k], in order. *)
Definition outcomes_for (k : string) (log : list (string * bool)) : list bool :=
  snd <$> List.filter (fun r => bool_decide (fst r = k)) log.

(** [n] outcomes of which only the first is a success. *)
Definition first_only (n : nat) : list bool :=
  match n with
  | O => []
  | S m => true :: replicate m false
  end.

End Registry.

(** ** Poll cycles *)

(** ** Lowering of ASCII text

    What [str.lower] does to a string of ASCII characters: the letters A-Z
    go to a-z, nothing else changes. *)

Module Text.

Definition lower_char (c : ascii) : ascii :=
  let n := nat_of_ascii c in
  if ((65 <=? n) && (n <=? 90))%nat then ascii_of_nat (n + 32) else c.

Fixpoint ascii_lower (s : string) : string :=
  match s with
  | EmptyString => EmptyString
  | String c s' => String (lower_char c) (ascii_lower s')
  end.

(** Every character of [s] is below 128. *)
Fixpoint is_ascii (s : string) : bool :=
  match s with
  | EmptyString => true
  | String c s' => (nat_of_ascii c <? 128)%nat && is_ascii s'
  end.

End Text.

(** ** Polls and tasks *)

Module Polls.
Import Main.

Definition empty_bot : TelegramBot.bot :=
  {| TelegramBot.pending_actions := ∅; TelegramBot.events := [];
     TelegramBot.trace := [] |}.

(** A server that answers OK to everything; a new connection is number 0. *)
Definition imap_ok : Emailer.imap_env :=
  {| Emailer.imap_noop_r := Ok true; Emailer.IMAP4_SSL_r := Ok 0%nat;
     Emailer.login_r := Ok (); Emailer.select_inbox_r := Ok true |}.

(** The process with nothing to do, as a poll of an empty mailbox leaves
    it: no task, nothing sent, connection 0 open with INBOX selected. *)
Definition idle : world :=
  {| active_tasks := ∅; bot := empty_bot; outbox := []; drafts := [];
     seen := [];
     imap := {| Emailer.imap_conn := Some 0%nat;
                Emailer.selected := {[ 0%nat := Emailer.INBOX ]} |} |}.

(** The process right after its start: no connection yet. *)
Definition started : world :=
  with_imap {| Emailer.imap_conn := None; Emailer.selected := ∅ |} idle.

Definition poll (m : Emailer.mail_env) : cycle_env :=
  {| imap_answers := imap_ok; select_unread_r := Ok true; mail := m;
     finishing := [] |}.

(** An unread message. *)
Definition question : Email :=
  {| id := "2"; to_address := "support@x.com"; from_address := "alice@x.com";
     subject := "Help"; body := "How do I reset my password?";
     date := {| instant := 1704103200000000; aware := true |};
     message_id := "<m1@x.com>"; references := "" |}.

(** The agent gives the answer [answer]; the answers of the scenarios are
    ASCII text, which [str.lower] lowers as [Text.ascii_lower] does; the
    server takes the draft in the first folder tried. *)
Definition responding_with (answer : string)
    (channel : option TelegramBot.approval_env) : respond_env :=
  {| agent_r := Ok answer;
     lower := Text.ascii_lower;
     markdown := fun s => "<p>" +:+ s +:+ "</p>";
     import_time := 1704000000000000;
     telegram_bot := channel;
     draft_imap := imap_ok;
     select_r := fun _ => Ok true;
     select_fallback_r := Ok true;
     append_r := Ok true |}.

(** A task on connection 0 for which the mail servers all work. *)
Definition task_with (env : respond_env) : task_env :=
  {| responding := env; imap_conn := 0%nat; connect_r := Ok ();
     send_message_r := Ok (); quit_r := Ok (); store_r := Ok true |}.

(** The agent answers; no bot is configured. *)
Definition answering : respond_env :=
  responding_with "Click Forgot Password." None.

(** A task for which the agent and the mail servers all work. *)
Definition smooth : task_env := task_with answering.

(** A channel on which both sends of the notification fail. *)
Definition unreachable : TelegramBot.approval_env :=
  {| TelegramBot.now_timestamp := "1704200000.0";
     TelegramBot.send_html_r := Raise TelegramError;
     TelegramBot.during_send_html := [];
     TelegramBot.send_plain_r := Raise TelegramError;
     TelegramBot.during_send_plain := [];
     TelegramBot.during_wait := [];
     TelegramBot.withdraw_r := Ok ();
     TelegramBot.during_withdraw := [] |}.

Definition answering_with (channel : TelegramBot.approval_env) : respond_env :=
  responding_with "Click Forgot Password." (Some channel).

Definition smooth_with (channel : TelegramBot.approval_env) : task_env :=
  task_with (answering_with channel).

(** The agent does not know. *)
Definition puzzled : task_env :=
  task_with (responding_with "I'm not sure what you mean." None).

(** The process with the task for message 2 registered. *)
Definition handling : world :=
  with_tasks {["2" := [question]]} idle.

End Polls.

(** * Notions for the further properties *)

(** ** Reference tokens *)

Module References.

(** [c] occurs in [s]. *)
Fixpoint occurs (c : ascii) (s : string) : bool :=
  match s with
  | EmptyString => false
  | String c' s' => Ascii.eqb c' c || occurs c s'
  end.

(** A message id without its angle brackets: not empty, no bracket inside. *)
Definition bare_id (t : string) : Prop :=
  t <> "" /\ occurs "<" t = false /\ occurs ">" t = false.

(** The ids as a References header lists them: each in angle brackets,
    separated by [sep]. *)
Fixpoint render (sep : string) (ids : list string) : string :=
  match ids with
  | [] => ""
  | t :: ids' => "<" +:+ t +:+ ">" +:+ sep +:+ render sep ids'
  end.

End References.

(** ** A mailbox without Gmail thread ids

    Message 2 answers message 1 and names it twice in its References. *)

Module Plain.
Import Emailer.

Definition parsedate (s : string) : option datetime :=
  if String.eqb s "Mon, 01 Jan 2024 10:00:00 +0000"
  then Some {| instant := 1704103200000000; aware := true |}
  else if String.eqb s "Tue, 02 Jan 2024 09:00:00 +0000"
  then Some {| instant := 1704186000000000; aware := true |}
  else None.

Definition answer : RawEmail :=
  {| hdr_subject := "Re: Help"; hdr_from := "alice@x.com";
     hdr_to := "support@x.com";
     hdr_date := "Tue, 02 Jan 2024 09:00:00 +0000";
     hdr_message_id := "<m2@x.com>";
     hdr_references := "<m1@x.com> <m1@x.com>";
     text_body := "Any news?" |}.

Definition mailbox : mail_env :=
  {| parsedate_to_datetime := parsedate;
     clock := fun _ => 1704200000000000;
     fetch_body := fun i =>
       if String.eqb i "1" then Ok (Some Mailbox.raw1)
       else if String.eqb i "2" then Ok (Some answer)
       else Ok None;
     fetch_thrid := fun _ => Ok None;
     search_thrid := fun _ => Ok [];
     fetch_references := fun _ => Ok (Some "References: <m1@x.com> <m1@x.com>");
     search_message_id := fun r =>
       if String.eqb r "m1@x.com" then Ok ["1"] else Ok [];
     search_unseen := Ok ["2"] |}.

Definition first : Email :=
  {| id := "1"; to_address := "support@x.com"; from_address := "alice@x.com";
     subject := "Help"; body := "How do I reset my password?";
     date := {| instant := 1704103200000000; aware := true |};
     message_id := "<m1@x.com>"; references := "" |}.

Definition second : Email :=
  {| id := "2"; to_address := "support@x.com"; from_address := "alice@x.com";
     subject := "Re: Help"; body := "Any news?";
     date := {| instant := 1704186000000000; aware := true |};
     message_id := "<m2@x.com>"; references := "<m1@x.com> <m1@x.com>" |}.

End Plain.

(** ** Decisions a run of presses can leave in an entry *)

Module Decisions.
Import TelegramBot.

(** [d] is the decision the entry of [k] can hold after the presses [qs],
    when it held [d0] before and its draft is [draft]: [d0] itself, [None],
    or the draft, the last only when [qs] holds a "send" press for [k]. *)
Definition written_by (draft : Email) (k : string) (qs : list callback_query)
    (d0 d : option Email) : Prop :=
  d = d0 \/ d = None
  \/ (d = Some draft
      /\ exists q, q ∈ qs /\ cb_email_id q = k /\ cb_action q = "send").

End Decisions.

(** ** The phrases that make an answer unsure *)

Module Phrases.

Definition phrases : list string :=
  ["not sure"; "unsure"; "don't know"; "dont know"; "do not know"].

End Phrases.

(** ** What one handling task leaves behind *)

Module Handling.
Import Main.

(** The steps after the send both go through: [smtp_conn.quit()] returns
    and the STORE of [mark_as_read] is answered OK. *)
Definition closes (env : task_env) : bool :=
  match quit_r env, store_r env with
  | Ok _, Ok true => true
  | _, _ => false
  end.

(** The channel [channel] let the reply through: a "send" press for the
    key of the thread was handled during the wait, or the rendezvous raised
    an [Exception]. *)
Definition let_through (channel : TelegramBot.approval_env)
    (email_thread : list Email) (most_recent draft_email : Email)
    (b : TelegramBot.bot) : Prop :=
  (exists q, q ∈ TelegramBot.during_wait channel
             /\ TelegramBot.cb_email_id q
                = TelegramBot.unique_id_of channel most_recent
             /\ TelegramBot.cb_action q = "send")
  \/ (exists e, snd (TelegramBot.notify_and_wait_for_action channel
                       email_thread draft_email b) = Raise e
                /\ is_Exception e = true).

End Handling.

(** ** A task whose reply is approved *)

Module Approved.

(** "Send" is pressed during the wait. *)
Definition channel : TelegramBot.approval_env :=
  Approval.channel [] [Approval.press "send" "2"] (Ok ()).

Definition task : Main.task_env := Polls.smooth_with channel.

End Approved.

(** ** A task whose draft is saved *)

Module Saved.

(** "Save as Draft" is pressed during the wait. *)
Definition channel : TelegramBot.approval_env :=
  Approval.channel [] [Approval.press "draft" "2"] (Ok ()).

Definition task : Main.task_env := Polls.smooth_with channel.

(** A second unread message, and the task that answers it once "Send" is
    pressed. *)
Definition other_question : Email :=
  {| id := "3"; to_address := "support@x.com"; from_address := "bob@x.com";
     subject := "Invoice"; body := "Where is my invoice?";
     date := {| instant := 1704106800000000; aware := true |};
     message_id := "<m3@x.com>"; references := "" |}.

Definition other_task : Main.task_env :=
  Polls.smooth_with (Approval.channel [] [Approval.press "send" "3"] (Ok ())).

End Saved.

(** * Properties *)

(** ** Sorting a thread by date *)

Section sort_by_date.
Import Emailer.

Lemma datetime_lt_same_kind k a b :
  aware a = k -> aware b = k -> datetime_lt a b = Ok (instant a <? instant b).
Proof.
  intros Ha Hb. unfold datetime_lt. rewrite Ha, Hb.
  by destruct k.
Qed.

Lemma datetime_lt_mixed a b :
  aware a <> aware b -> datetime_lt a b = Raise TypeError.
Proof.
  intros Hab. unfold datetime_lt.
  destruct (aware a), (aware b); simpl; congruence.
Qed.

Lemma insert_by_date_ok k x l :
  aware (date x) = k -> same_kind k l ->
  exists r, insert_by_date x l = Ok r /\ r ≡ₚ x :: l /\ same_kind k r.
Proof.
  intros Hx Hl. induction Hl as [|y l Hy Hl IH]; simpl.
  - exists [x]. repeat split; [done | by constructor].
  - rewrite (datetime_lt_same_kind k) by done. simpl.
    destruct (instant (date y) <? instant (date x)).
    + destruct IH as (r & -> & Hperm & Hkind). exists (y :: r). simpl.
      repeat split.
      * rewrite Hperm. apply Permutation_swap.
      * by constructor.
    + exists (x :: y :: l). repeat split; [done |].
      constructor; [done |]. by constructor.
Qed.

Lemma sort_by_date_ok k l :
  same_kind k l ->
  exists r, sort_by_date l = Ok r /\ r ≡ₚ l /\ same_kind k r.
Proof.
  induction 1 as [|x l Hx Hl IH]; simpl.
  - exists []. repeat split; [done | constructor].
  - destruct IH as (s & -> & Hperm & Hkind). simpl.
    destruct (insert_by_date_ok k x s Hx Hkind) as (r & Hr & Hp & Hk).
    exists r. repeat split; [done | | done].
    by rewrite Hp, Hperm.
Qed.

Lemma insert_by_date_elem x l r e :
  insert_by_date x l = Ok r -> e ∈ r -> e = x \/ e ∈ l.
Proof.
  revert r. induction l as [|y l IH]; simpl; intros r Hr He.
  - injection Hr as <-. set_solver.
  - destruct (datetime_lt (date y) (date x)) as [[]|]; simpl in Hr; [| |done].
    + destruct (insert_by_date x l) as [r'|]; simpl in Hr; [|done].
      injection Hr as <-. apply elem_of_cons in He as [->|He]; [set_solver|].
      destruct (IH r' eq_refl He); set_solver.
    + injection Hr as <-. set_solver.
Qed.

Lemma insert_by_date_sorted x l r :
  insert_by_date x l = Ok r ->
  StronglySorted date_le l -> StronglySorted date_le r.
Proof.
  revert r. induction l as [|y l IH]; simpl; intros r Hr Hs.
  - injection Hr as <-. repeat constructor.
  - unfold datetime_lt in Hr.
    destruct (Bool.eqb _ _); simpl in Hr; [|done].
    destruct (instant (date y) <? instant (date x)) eqn:Hlt; simpl in Hr.
    + destruct (insert_by_date x l) as [r'|] eqn:Hins; simpl in Hr; [|done].
      injection Hr as <-. apply StronglySorted_cons in Hs as [Hall Hs].
      apply StronglySorted_cons. split; [|by apply IH].
      apply Forall_forall. intros e He.
      destruct (insert_by_date_elem _ _ _ _ Hins He) as [->|Hin].
      * unfold date_le. lia.
      * by apply (proj1 (Forall_forall _ _) Hall).
    + injection Hr as <-. apply StronglySorted_cons. split; [|done].
      apply StronglySorted_cons in Hs as [Hall Hs].
      assert (date_le x y) as Hxy by (unfold date_le; lia).
      constructor; [done |].
      eapply Forall_impl; [exact Hall |]. unfold date_le in *. intros; lia.
Qed.

Lemma sort_by_date_sorted l r :
  sort_by_date l = Ok r -> StronglySorted date_le r.
Proof.
  revert r. induction l as [|x l IH]; simpl; intros r Hr.
  - injection Hr as <-. constructor.
  - destruct (sort_by_date l) as [s|]; simpl in Hr; [|done].
    eapply insert_by_date_sorted; [exact Hr | by apply IH].
Qed.

Lemma insert_by_date_stable t x l r :
  insert_by_date x l = Ok r -> filter (dated t) r = filter (dated t) (x :: l).
Proof.
  revert r. induction l as [|y l IH]; simpl; intros r Hr.
  - by injection Hr as <-.
  - unfold datetime_lt in Hr.
    destruct (Bool.eqb _ _); simpl in Hr; [|done].
    destruct (instant (date y) <? instant (date x)) eqn:Hlt; simpl in Hr.
    + destruct (insert_by_date x l) as [r'|] eqn:Hins; simpl in Hr; [|done].
      injection Hr as <-. specialize (IH r' eq_refl).
      rewrite (filter_cons _ y r'), IH, !filter_cons.
      destruct (decide (dated t x)) as [Hx|Hx], (decide (dated t y)) as [Hy|Hy];
        try done.
      unfold dated in *. lia.
    + by injection Hr as <-.
Qed.

Lemma sort_by_date_stable t l r :
  sort_by_date l = Ok r -> filter (dated t) r = filter (dated t) l.
Proof.
  revert r. induction l as [|x l IH]; simpl; intros r Hr.
  - by injection Hr as <-.
  - destruct (sort_by_date l) as [s|]; simpl in Hr; [|done].
    rewrite (insert_by_date_stable t x s r Hr), !filter_cons, (IH s eq_refl).
    done.
Qed.

Lemma insert_by_date_perm x l r :
  insert_by_date x l = Ok r -> r ≡ₚ x :: l.
Proof.
  revert r. induction l as [|y l IH]; simpl; intros r Hr.
  - by injection Hr as <-.
  - destruct (datetime_lt (date y) (date x)) as [[]|]; simpl in Hr; [| |done].
    + destruct (insert_by_date x l) as [r'|]; simpl in Hr; [|done].
      injection Hr as <-. rewrite (IH r' eq_refl). apply Permutation_swap.
    + by injection Hr as <-.
Qed.

Lemma sort_by_date_perm l r : sort_by_date l = Ok r -> r ≡ₚ l.
Proof.
  revert r. induction l as [|x l IH]; simpl; intros r Hr.
  - by injection Hr as <-.
  - destruct (sort_by_date l) as [s|]; simpl in Hr; [|done].
    rewrite (insert_by_date_perm x s r Hr). by rewrite (IH s eq_refl).
Qed.

(** The sort goes through only on dates of one kind. *)
Lemma sort_by_date_same_kind l r :
  sort_by_date l = Ok r -> exists k, same_kind k l.
Proof.
  revert r. induction l as [|x l IH]; simpl; intros r Hr.
  - exists true. constructor.
  - destruct (sort_by_date l) as [s|] eqn:Hs; simpl in Hr; [|done].
    destruct (IH s eq_refl) as [k Hk].
    pose proof (sort_by_date_perm l s Hs) as Hperm.
    destruct s as [|y s'].
    + apply Permutation_nil_l in Hperm as <-.
      exists (aware (date x)). by repeat constructor.
    + exists k. constructor; [|done].
      assert (aware (date y) = k) as Hy.
      { apply (proj1 (Forall_forall _ _) Hk). rewrite <-Hperm. set_solver. }
      simpl in Hr. unfold datetime_lt in Hr.
      destruct (Bool.eqb (aware (date y)) (aware (date x))) eqn:Heq;
        simpl in Hr; [|done].
      apply Bool.eqb_prop in Heq. congruence.
Qed.

Lemma insert_by_date_raises x l e :
  insert_by_date x l = Raise e -> e = TypeError.
Proof.
  induction l as [|y l IH]; simpl; [done |].
  unfold datetime_lt. destruct (Bool.eqb _ _); simpl; [|congruence].
  destruct (_ <? _); simpl; [|done].
  destruct (insert_by_date x l); simpl; [done |].
  intros [= <-]. by apply IH.
Qed.

Lemma sort_by_date_raises l e : sort_by_date l = Raise e -> e = TypeError.
Proof.
  induction l as [|x l IH]; simpl; [done |].
  destruct (sort_by_date l) as [s|]; simpl.
  - apply insert_by_date_raises.
  - intros [= <-]. by apply IH.
Qed.

(** Two dates of different kinds anywhere in the list: [TypeError]. *)
Lemma sort_by_date_mixed l x y :
  x ∈ l -> y ∈ l -> aware (date x) <> aware (date y) ->
  sort_by_date l = Raise TypeError.
Proof.
  intros Hx Hy Hxy. destruct (sort_by_date l) as [r|e] eqn:Hs.
  - destruct (sort_by_date_same_kind l r Hs) as [k Hk].
    pose proof (proj1 (Forall_forall _ _) Hk) as Hall.
    rewrite (Hall x Hx), (Hall y Hy) in Hxy. done.
  - by rewrite (sort_by_date_raises l e Hs).
Qed.
End sort_by_date.

(** ** Thread reconstruction (emailer.py, [_get_email_thread]) *)

Section reconstruction.
Import Emailer.

(** A message whose Date header is missing, or one
    [parsedate_to_datetime] rejects, is dated by the clock at its parse,
    as a naive value. *)
Lemma parse_email_default_date env email_id raw :
  fetch_body env email_id = Ok (Some raw) ->
  hdr_date raw = "" \/ parsedate_to_datetime env (hdr_date raw) = None ->
  exists e, _parse_email env email_id = Ok (Some e)
            /\ date e = datetime_now (clock env email_id)
            /\ aware (date e) = false.
Proof.
  intros Hfetch Hdate. unfold _parse_email. rewrite Hfetch. simpl.
  eexists. split; [reflexivity |]. simpl.
  destruct Hdate as [-> | ->]; simpl; [done |].
  by destruct (truthy (hdr_date raw)).
Qed.

(** When the dates of the group are of one kind, the Gmail branch returns
    the messages that parsed, ascending by date, equal dates in the order
    of the search answer. *)
Lemma gmail_thread_sorted env thread_ids parsed k :
  mapM (_parse_email env) thread_ids = Ok parsed ->
  same_kind k (omap (fun e : option Email => e) parsed) ->
  exists thread,
    gmail_thread env thread_ids = Ok thread
    /\ thread ≡ₚ omap (fun e : option Email => e) parsed
    /\ StronglySorted date_le thread
    /\ forall t, filter (dated t) thread
                 = filter (dated t) (omap (fun e : option Email => e) parsed).
Proof.
  intros Hparsed Hkind. unfold gmail_thread. rewrite Hparsed. simpl.
  destruct (sort_by_date_ok k _ Hkind) as (r & Hr & Hperm & _).
  exists r. split; [done |]. split; [done |]. split.
  - by eapply sort_by_date_sorted.
  - intros t. by apply sort_by_date_stable.
Qed.

(** When two messages of the group that parsed carry dates of different
    kinds, the Gmail branch raises [TypeError]. *)
Lemma gmail_thread_mixed env thread_ids parsed x y :
  mapM (_parse_email env) thread_ids = Ok parsed ->
  Some x ∈ parsed -> Some y ∈ parsed ->
  aware (date x) <> aware (date y) ->
  gmail_thread env thread_ids = Raise TypeError.
Proof.
  intros Hparsed Hx Hy Hxy. unfold gmail_thread. rewrite Hparsed. simpl.
  apply (sort_by_date_mixed _ x y); [| |done];
    apply list_elem_of_omap; eauto.
Qed.
End reconstruction.

(** C8.  A Gmail thread of two messages, the first dated with a numeric
    zone (an aware datetime) and the unread second one without a Date header
    (dated [datetime.now()], a naive datetime): the sort of the group
    compares the two dates and raises [TypeError]; the reconstruction
    returns no thread, sorted or not, and the exception leaves
    [_get_unread_emails]. *)
Lemma reconstruct_mixed_dates_raises :
  Emailer._parse_email Mailbox.two_messages "2"
    = Ok (Some {| id := "2"; to_address := "support@x.com";
                  from_address := "alice@x.com"; subject := "Re: Help";
                  body := "Any news?";
                  date := datetime_now 1704200000000000;
                  message_id := "<m2@x.com>"; references := "<m1@x.com>" |})
  /\ Emailer._get_email_thread Mailbox.two_messages "2" = Raise TypeError
  /\ Emailer._get_unread_emails Mailbox.two_messages = Raise TypeError.
Proof. repeat split; reflexivity. Qed.

(** ** The poll cycle and the loop of [main] *)

Section poll_loop.
Import Main.

Lemma get_email_thread_no_data env email_id :
  Emailer.fetch_body env email_id = Ok None ->
  Emailer._get_email_thread env email_id = Ok [].
Proof.
  intros H. unfold Emailer._get_email_thread, Emailer._parse_email.
  by rewrite H.
Qed.

Lemma spawn_tasks_empty_thread unread_threads w :
  [] ∈ unread_threads -> snd (spawn_tasks unread_threads w) = Raise IndexError.
Proof.
  revert w. induction unread_threads as [|thread rest IH]; intros w Hin.
  - by apply elem_of_nil in Hin.
  - simpl. unfold py_last. destruct (last thread) as [most_recent|] eqn:Hlast.
    + apply IH. apply elem_of_cons in Hin as [<-|Hin]; [done | exact Hin].
    + done.
Qed.

(** An empty thread among the unread ones makes the poll raise. *)
Lemma process_empty_thread c w unread_threads st imap_conn ok :
  Emailer._ensure_imap_connection (imap_answers c) (imap w)
  = (st, Ok imap_conn) ->
  select_unread_r c = Ok ok ->
  Emailer._get_unread_emails (mail c) = Ok unread_threads ->
  [] ∈ unread_threads ->
  snd (process_with_draft_handling c w) = Raise IndexError.
Proof.
  intros Himap Hselect Hunread Hin. unfold process_with_draft_handling.
  rewrite Himap, Hselect, Hunread. by apply spawn_tasks_empty_thread.
Qed.

(** The first poll that raises is the last poll. *)
Lemma main_ends_at_first_fault before c after w :
  Forall (fun c' => forall w', snd (process_with_draft_handling c' w') = Ok ())
    before ->
  (forall w', exists e, snd (process_with_draft_handling c w') = Raise e) ->
  polls (main (before ++ c :: after) w) = S (length before)
  /\ is_Some (ended_by (main (before ++ c :: after) w)).
Proof.
  intros Hbefore Hc. revert w.
  induction Hbefore as [|c' before Hc' _ IH]; intros w; simpl.
  - destruct (Hc w) as [e He].
    destruct (process_with_draft_handling c w) as [w1 r]. simpl in He.
    subst r. simpl. eauto.
  - specialize (Hc' w).
    destruct (process_with_draft_handling c' w) as [w1 r]. simpl in Hc'.
    subst r. simpl.
    destruct (IH (foldl finish_task w1 (finishing c'))) as [-> Hend]. done.
Qed.
End poll_loop.

Section handling.
Import Main.

(** No bot: the reply is sent, the message marked read, the key released. *)
Example reply_sent :
  let w := fst (handle_thread Polls.smooth [Polls.question] Polls.handling) in
  outbox w = [draft_reply Polls.answering Polls.question "Click Forgot Password."]
  /\ seen w = [(Some Emailer.INBOX, "2")] /\ drafts w = []
  /\ active_tasks w = ∅.
Proof. repeat split; reflexivity. Qed.

(** The agent is unsure: nothing sent, nothing marked, the key released. *)
Example unsure_left_unread :
  let w := fst (handle_thread Polls.puzzled [Polls.question] Polls.handling) in
  outbox w = [] /\ seen w = [] /\ active_tasks w = ∅.
Proof. repeat split; reflexivity. Qed.

(** "Save as Draft" is pressed: the draft is saved, nothing is sent. *)
Example draft_saved :
  let w := fst (handle_thread
                  (Polls.smooth_with
                     (Approval.channel [] [Approval.press "draft" "2"] (Ok ())))
                  [Polls.question] Polls.handling) in
  outbox w = [] /\ seen w = [] /\ active_tasks w = ∅
  /\ drafts w
     = [(Emailer.GmailDrafts,
         draft_reply (Polls.answering_with Approval.silent) Polls.question
           "Click Forgot Password.")].
Proof. repeat split; reflexivity. Qed.

(** Nothing that is an [Exception] leaves [handle_thread]. *)
Lemma handle_thread_catches env email_thread w e :
  email_thread <> [] ->
  snd (handle_thread env email_thread w) = Some e -> is_Exception e = false.
Proof.
  intros Hthread. unfold handle_thread, py_last.
  destruct (last email_thread) as [most_recent|] eqn:Hlast;
    [|by apply last_None in Hlast].
  destruct (handle_thread_try env most_recent email_thread w) as [w1 [|e']];
    [done |].
  destruct (is_Exception e') eqn:He'; [done |]. simpl. by intros [= <-].
Qed.

(** As long as the polls themselves return, [main] keeps polling,
    whatever the tasks that finish in between meet. *)
Lemma main_keeps_polling cycles w :
  Forall (fun c => forall w', snd (process_with_draft_handling c w') = Ok ())
    cycles ->
  polls (main cycles w) = length cycles /\ ended_by (main cycles w) = None.
Proof.
  intros Hcycles. revert w.
  induction Hcycles as [|c cycles Hc _ IH]; intros w; [done |].
  simpl. specialize (Hc w).
  destruct (process_with_draft_handling c w) as [w1 r]. simpl in Hc. subst r.
  simpl. destruct (IH (foldl finish_task w1 (finishing c))) as [-> ->]. done.
Qed.
End handling.

(** C9.  The unread message is gone when it is fetched: the
    reconstruction returns the empty thread, [_get_unread_emails] hands it
    on among the unread threads, and the poll takes its last element:
    [IndexError], before any task is spawned. *)
Lemma empty_thread_reaches_poll :
  Emailer._get_email_thread Mailbox.vanished "2" = Ok []
  /\ Emailer._get_unread_emails Mailbox.vanished = Ok [[]]
  /\ Main.process_with_draft_handling (Polls.poll Mailbox.vanished) Polls.idle
     = (Polls.idle, Raise IndexError).
Proof. repeat split; reflexivity. Qed.

(** C5.  The connection drops during the reconstruction of the first poll:
    the exception reaches the handler of [main], which lies outside the
    loop; the two polls that were to follow never run. *)
Lemma main_stops_after_reconstruction_fault :
  let run := Main.main [Polls.poll Mailbox.dropped; Polls.poll Mailbox.quiet;
                        Polls.poll Mailbox.quiet] Polls.idle in
  Main.polls run = 1%nat /\ Main.ended_by run = Some IMAPError.
Proof. split; reflexivity. Qed.

(** ** The registry of active tasks *)

Section registry.
Import Main Registry.

Lemma try_acquire_free k task (tasks : gmap string (list Email)) :
  tasks !! k = None -> try_acquire k task tasks = (<[k := task]> tasks, true).
Proof.
  intros Hfree. unfold try_acquire.
  rewrite bool_decide_eq_false_2; [done |].
  by apply not_elem_of_dom.
Qed.

Lemma try_acquire_held k task (tasks : gmap string (list Email)) :
  is_Some (tasks !! k) -> try_acquire k task tasks = (tasks, false).
Proof.
  intros Hheld. unfold try_acquire.
  rewrite bool_decide_eq_true_2; [done |].
  by apply elem_of_dom.
Qed.

Lemma try_acquire_keeps k k' task (tasks : gmap string (list Email)) :
  is_Some (tasks !! k) -> is_Some (fst (try_acquire k' task tasks) !! k).
Proof.
  intros Hheld. unfold try_acquire. case_bool_decide; simpl; [done |].
  destruct (decide (k' = k)) as [->|Hne].
  - rewrite lookup_insert_eq. eauto.
  - by rewrite lookup_insert_ne.
Qed.

(** While [k] is held and never released, every attempt on it fails. *)
Lemma run_ops_held k ops (tasks : gmap string (list Email)) :
  is_Some (tasks !! k) ->
  Forall (fun op => is_release k op = false) ops ->
  outcomes_for k (snd (run_ops ops tasks))
  = replicate (length (List.filter (is_acquire k) ops)) false.
Proof.
  intros Hheld Hops. revert tasks Hheld.
  induction Hops as [|op ops Hop _ IH]; intros tasks Hheld; [done |].
  destruct op as [k' task|k']; simpl.
  - pose proof (try_acquire_keeps k k' task tasks Hheld) as Hkeep.
    destruct (try_acquire k' task tasks) as [tasks1 ok] eqn:Hacq.
    simpl in Hkeep. specialize (IH tasks1 Hkeep).
    destruct (run_ops ops tasks1) as [tasks2 log]. simpl in IH |- *.
    unfold outcomes_for in *. simpl.
    case_bool_decide as Hk; simpl; [|exact IH].
    subst k'. rewrite (try_acquire_held k task tasks Hheld) in Hacq.
    injection Hacq as <- <-. f_equal. exact IH.
  - simpl in Hop. apply bool_decide_eq_false in Hop.
    apply IH. unfold release. by rewrite lookup_delete_ne.
Qed.

(** From a state where [k] is free, with no release of [k]: the first
    attempt on [k] succeeds and the later ones fail. *)
Lemma run_ops_first_only k ops (tasks : gmap string (list Email)) :
  tasks !! k = None ->
  Forall (fun op => is_release k op = false) ops ->
  outcomes_for k (snd (run_ops ops tasks))
  = first_only (length (List.filter (is_acquire k) ops)).
Proof.
  intros Hfree Hops. revert tasks Hfree.
  induction Hops as [|op ops Hop Hops IH]; intros tasks Hfree; [done |].
  destruct op as [k' task|k']; simpl.
  - case_bool_decide as Hk.
    + subst k'. rewrite (try_acquire_free k task tasks Hfree).
      pose proof (run_ops_held k ops (<[k := task]> tasks)) as Hrest.
      destruct (run_ops ops (<[k := task]> tasks)) as [tasks2 log].
      unfold outcomes_for in *. simpl.
      rewrite bool_decide_eq_true_2 by done. simpl. f_equal.
      apply Hrest; [|done]. rewrite lookup_insert_eq. eauto.
    + assert (fst (try_acquire k' task tasks) !! k = None) as Hfree'.
      { unfold try_acquire. case_bool_decide; simpl; [done |].
        by rewrite lookup_insert_ne. }
      destruct (try_acquire k' task tasks) as [tasks1 ok]. simpl in Hfree'.
      specialize (IH tasks1 Hfree').
      destruct (run_ops ops tasks1) as [tasks2 log].
      unfold outcomes_for in *. simpl in IH |- *.
      by rewrite bool_decide_eq_false_2.
  - simpl in Hop. apply bool_decide_eq_false in Hop.
    apply IH. unfold release. by rewrite lookup_delete_ne.
Qed.

Lemma release_then_acquire k task (tasks : gmap string (list Email)) :
  try_acquire k task (release k tasks) = (<[k := task]> (release k tasks), true).
Proof. apply try_acquire_free. unfold release. apply lookup_delete_eq. Qed.

Lemma release_idempotent k (tasks : gmap string (list Email)) :
  release k (release k tasks) = release k tasks.
Proof. unfold release. apply delete_delete_eq. Qed.

Lemma release_absent k (tasks : gmap string (list Email)) :
  tasks !! k = None -> release k tasks = tasks.
Proof. unfold release. apply delete_id. Qed.

(** Whatever [respond] and the SMTP side do, [handle_thread] ends with
    its key out of [active_tasks]. *)
Lemma handle_thread_releases env email_thread most_recent w :
  last email_thread = Some most_recent ->
  active_tasks (fst (handle_thread env email_thread w)) !! id most_recent = None.
Proof.
  intros Hlast. unfold handle_thread, py_last. rewrite Hlast.
  destruct (handle_thread_try env most_recent email_thread w) as [w1 r].
  assert (active_tasks (with_tasks (release (id most_recent) (active_tasks w1)) w1)
            !! id most_recent = None) as Hgone.
  { simpl. unfold release. apply lookup_delete_eq. }
  destruct r as [|e]; [done |]. by destruct (is_Exception e).
Qed.
End registry.

(** C4.  From a state where [k] is free and through any operations that
    do not release [k], the first acquire attempt on [k] succeeds and every
    later one fails; after a release of [k] an attempt succeeds; releasing
    twice is releasing once, and releasing a free key changes nothing; and
    [handle_thread], whatever its environment makes of [respond] and of the
    delivery (a reply sent, a draft saved, a failed send, an exception),
    ends with the key of its thread released. *)
Theorem registry_exclusive_and_released
    (k : string) (ops : list Registry.registry_op)
    (tasks : gmap string (list Email))
    (env : Main.task_env) (email_thread : list Email) (most_recent : Email)
    (w : Main.world) :
  tasks !! k = None ->
  Forall (fun op => Registry.is_release k op = false) ops ->
  last email_thread = Some most_recent ->
  Registry.outcomes_for k (snd (Registry.run_ops ops tasks))
  = Registry.first_only (length (List.filter (Registry.is_acquire k) ops))
  /\ (forall task tasks',
        snd (Main.try_acquire k task (Main.release k tasks')) = true)
  /\ (forall tasks', Main.release k (Main.release k tasks') = Main.release k tasks')
  /\ Main.release k tasks = tasks
  /\ Main.active_tasks (fst (Main.handle_thread env email_thread w))
       !! id most_recent = None.
Proof.
  intros Hfree Hops Hlast. split; [by apply run_ops_first_only |].
  split; [intros; by rewrite release_then_acquire |].
  split; [intros; apply release_idempotent |].
  split; [by apply release_absent |].
  by apply handle_thread_releases.
Qed.

Lemma registry_exclusive_and_released_witness :
  Registry.outcomes_for "2"
    (snd (Registry.run_ops
            [Registry.Acquire "2" [Polls.question]; Registry.Acquire "7" [];
             Registry.Acquire "2" [Polls.question]; Registry.Release "7";
             Registry.Acquire "2" [Polls.question]] ∅))
  = [true; false; false]
  /\ Main.active_tasks
       (fst (Main.handle_thread Polls.smooth [Polls.question]
               (Main.with_tasks {["2" := [Polls.question]]} Polls.idle)))
       !! "2" = None.
Proof.
  pose proof (registry_exclusive_and_released "2"
    [Registry.Acquire "2" [Polls.question]; Registry.Acquire "7" [];
     Registry.Acquire "2" [Polls.question]; Registry.Release "7";
     Registry.Acquire "2" [Polls.question]] ∅
    Polls.smooth [Polls.question] Polls.question
    (Main.with_tasks {["2" := [Polls.question]]} Polls.idle)
    eq_refl ltac:(repeat constructor) eq_refl) as (H1 & _ & _ & _ & H5).
  split; [exact H1 | exact H5].
Defined.

(** ** [respond] and the approval channel *)

Section fallback.
Import Main.

Lemma respond_channel_raises env email_thread most_recent w channel body_md b e :
  last email_thread = Some most_recent ->
  agent_r env = Ok body_md ->
  unsure (lower env body_md) = false ->
  telegram_bot env = Some channel ->
  TelegramBot.notify_and_wait_for_action channel email_thread
    (draft_reply env most_recent body_md) (bot w) = (b, Raise e) ->
  is_Exception e = true ->
  respond env email_thread w
  = (with_bot b w, Ok (Some (draft_reply env most_recent body_md))).
Proof.
  intros Hlast Hagent Hsure Hbot Hnotify He.
  unfold respond, py_last. rewrite Hlast, Hagent, Hsure, Hbot, Hnotify.
  by rewrite He.
Qed.

(** A reply that [respond] returns and that is not the draft marker is
    in the outbox once the connection and the send go through. *)
Lemma handle_thread_sends env email_thread most_recent w w1 response :
  last email_thread = Some most_recent ->
  respond (responding env) email_thread w = (w1, Ok (Some response)) ->
  id response <> "DRAFT_MARKER" ->
  connect_r env = Ok () ->
  send_message_r env = Ok () ->
  outbox (fst (handle_thread env email_thread w)) = (outbox w1 ++ [response])%list.
Proof.
  intros Hlast Hrespond Hid Hconnect Hsend.
  unfold handle_thread, py_last, handle_thread_try.
  rewrite Hlast, Hrespond.
  apply String.eqb_neq in Hid. rewrite Hid, Hconnect, Hsend.
  destruct (quit_r env) as [[]|e1]; [|by destruct (is_Exception e1)].
  destruct (store_r env) as [[]|e2]; [done | done |].
  by destruct (is_Exception e2).
Qed.
End fallback.

(** C10.  When the agent has answered, a bot is configured and
    [notify_and_wait_for_action] raises an [Exception] (while it notifies
    or while it waits), [respond] returns the generated draft, and
    [handle_thread] sends it as soon as the SMTP connection and the send go
    through. *)
Theorem approval_failure_sends_draft
    (env : Main.task_env) (email_thread : list Email) (most_recent : Email)
    (w : Main.world) (channel : TelegramBot.approval_env) (body_md : string)
    (b : TelegramBot.bot) (e : exn) :
  last email_thread = Some most_recent ->
  Main.agent_r (Main.responding env) = Ok body_md ->
  Main.unsure (Main.lower (Main.responding env) body_md) = false ->
  Main.telegram_bot (Main.responding env) = Some channel ->
  TelegramBot.notify_and_wait_for_action channel email_thread
    (Main.draft_reply (Main.responding env) most_recent body_md) (Main.bot w)
  = (b, Raise e) ->
  is_Exception e = true ->
  Main.connect_r env = Ok () ->
  Main.send_message_r env = Ok () ->
  Main.respond (Main.responding env) email_thread w
  = (Main.with_bot b w,
     Ok (Some (Main.draft_reply (Main.responding env) most_recent body_md)))
  /\ Main.outbox (fst (Main.handle_thread env email_thread w))
     = (Main.outbox w
        ++ [Main.draft_reply (Main.responding env) most_recent body_md])%list.
Proof.
  intros Hlast Hagent Hsure Hbot Hnotify He Hconnect Hsend.
  pose proof (respond_channel_raises _ _ _ _ _ _ _ _
                Hlast Hagent Hsure Hbot Hnotify He) as Hrespond.
  split; [exact Hrespond |].
  by rewrite (handle_thread_sends _ _ _ _ _ _ Hlast Hrespond).
Qed.

(** Both sends of the notification fail: no entry was registered, no
    button was pressed, and the reply is in the outbox. *)
Lemma approval_failure_sends_draft_witness :
  let run := Main.handle_thread (Polls.smooth_with Polls.unreachable)
               [Polls.question] Polls.idle in
  Main.outbox (fst run)
  = [Main.draft_reply (Polls.answering_with Polls.unreachable) Polls.question
       "Click Forgot Password."]
  /\ TelegramBot.trace (Main.bot (fst run))
     = [TelegramBot.NotifyFailed "2" true TelegramError;
        TelegramBot.NotifyFailed "2" false TelegramError]
  /\ Main.seen (fst run) = [(Some Emailer.INBOX, "2")].
Proof.
  split; [|split; reflexivity].
  exact (proj2 (approval_failure_sends_draft
    (Polls.smooth_with Polls.unreachable) [Polls.question] Polls.question
    Polls.idle Polls.unreachable "Click Forgot Password."
    (TelegramBot.log (TelegramBot.NotifyFailed "2" false TelegramError)
       (TelegramBot.log (TelegramBot.NotifyFailed "2" true TelegramError)
          Polls.empty_bot))
    TelegramError eq_refl eq_refl eq_refl eq_refl eq_refl eq_refl eq_refl
    eq_refl)).
Defined.

(** ** The retry loop of [Emailer.process] *)

Section retry.
Import Emailer Delivery.

Example three_timeouts :
  let st := fst (send_with_retry
                   (failing [SMTPResponseException 451;
                             SMTPResponseException 451;
                             SMTPResponseException 451])) in
  sleeps st = [2; 4; 8] /\ attempts st = [1; 2; 3]%nat /\ success st = false.
Proof. repeat split; reflexivity. Qed.

Example disconnect_then_timeouts :
  let st := fst (send_with_retry
                   (failing [SMTPServerDisconnected;
                             SMTPResponseException 451;
                             SMTPResponseException 451])) in
  sleeps st = [2; 4] /\ reconnects st = [1; 2; 3]%nat.
Proof. repeat split; reflexivity. Qed.

Lemma doubling_S n : doubling (S n) = (doubling n ++ [2 * 2 ^ Z.of_nat n])%list.
Proof. unfold doubling. by rewrite seq_S, fmap_app. Qed.

Lemma in_step_back_off e st :
  backs_off e = true -> in_step st -> in_step (back_off (caught e st)).
Proof.
  intros He (Hdelay & Hsleeps & Hcount). unfold in_step. simpl.
  rewrite length_app, List.filter_app, length_app. simpl. rewrite He. simpl.
  replace (length (sleeps st) + 1)%nat with (S (length (sleeps st))) by lia.
  split; [|split].
  - rewrite Hdelay, Nat2Z.inj_succ, Z.pow_succ_r by lia. lia.
  - rewrite doubling_S, <-Hsleeps, Hdelay. done.
  - lia.
Qed.

Lemma in_step_disconnect st :
  in_step st -> in_step (caught SMTPServerDisconnected st).
Proof.
  intros (Hdelay & Hsleeps & Hcount). unfold in_step. simpl.
  rewrite List.filter_app, length_app. simpl.
  split; [done |]. split; [done |]. lia.
Qed.

Lemma retry_loop_in_step smtp todo st :
  in_step st -> in_step (fst (retry_loop smtp todo st)).
Proof.
  revert st. induction todo as [|attempt rest IH]; intros st Hst; [done |].
  assert (in_step (begin_attempt attempt st)) as Hbegin by exact Hst.
  simpl. destruct (try_body (smtp attempt)) as [[]|e]; [exact Hst |].
  destruct e;
    try (apply IH; by apply in_step_back_off);
    try (simpl; exact Hbegin).
  - destruct (handler_reconnect_r (smtp attempt)).
    + apply IH. by apply in_step_disconnect.
    + simpl. by apply in_step_disconnect.
  - destruct (smtp_code =? 451).
    + destruct (handler_reconnect_r (smtp attempt)).
      * apply IH. by apply in_step_back_off.
      * simpl. by apply in_step_back_off.
    + apply IH. by apply in_step_back_off.
Qed.

(** The delays one delivery sleeps are 2, 4, 8, ..., one for each caught
    failure that is not a disconnect. *)
Lemma send_with_retry_sleeps smtp :
  sleeps (fst (send_with_retry smtp))
  = doubling (length (List.filter backs_off (failures (fst (send_with_retry smtp))))).
Proof.
  assert (in_step (fst (send_with_retry smtp))) as (_ & Hsleeps & Hcount).
  { apply retry_loop_in_step. by repeat split. }
  by rewrite <-Hcount.
Qed.

Lemma retry_loop_succeeds smtp attempt rest st :
  try_body (smtp attempt) = Ok () ->
  retry_loop smtp (attempt :: rest) st
  = (succeeded (begin_attempt attempt st), None).
Proof. intros H. simpl. by rewrite H. Qed.

(** A failed attempt leaves the loop running: the next pass starts with
    one more attempt on record and [success] as it was. *)
Lemma retry_loop_fails smtp attempt rest st :
  fails (smtp attempt) = true ->
  exists st',
    retry_loop smtp (attempt :: rest) st = retry_loop smtp rest st'
    /\ attempts st' = (attempts st ++ [attempt])%list
    /\ success st' = success st.
Proof.
  unfold fails. intros H. simpl.
  destruct (try_body (smtp attempt)) as [[]|e]; [done |].
  destruct e; simpl in H; try done;
    try (eexists; split; [reflexivity | by split]).
  - destruct (handler_reconnect_r (smtp attempt)); [|done].
    eexists; split; [reflexivity | by split].
  - destruct (smtp_code =? 451).
    + destruct (handler_reconnect_r (smtp attempt)); [|done].
      eexists; split; [reflexivity | by split].
    + eexists; split; [reflexivity | by split].
Qed.

Lemma retry_loop_attempts smtp todo st :
  exists done_,
    attempts (fst (retry_loop smtp todo st)) = (attempts st ++ done_)%list
    /\ done_ `prefix_of` todo.
Proof.
  revert st. induction todo as [|attempt rest IH]; intros st.
  - exists []. split; [by rewrite app_nil_r | done].
  - assert (forall st', attempts st' = (attempts st ++ [attempt])%list ->
              exists done_,
                attempts (fst (retry_loop smtp rest st'))
                = (attempts st ++ done_)%list
                /\ done_ `prefix_of` attempt :: rest) as Hnext.
    { intros st' Hst'. destruct (IH st') as (d & Hd & Hpre).
      exists (attempt :: d). rewrite Hd, Hst', <-app_assoc.
      split; [done | by apply prefix_cons]. }
    assert (forall st', attempts st' = (attempts st ++ [attempt])%list ->
              exists done_,
                attempts st' = (attempts st ++ done_)%list
                /\ done_ `prefix_of` attempt :: rest) as Hstop.
    { intros st' Hst'. exists [attempt]. split; [done |].
      apply prefix_cons, prefix_nil. }
    simpl. destruct (try_body (smtp attempt)) as [[]|e]; [by apply Hstop |].
    destruct e; try (by apply Hnext); try (by apply Hstop).
    + destruct (handler_reconnect_r (smtp attempt));
        [by apply Hnext | by apply Hstop].
    + destruct (smtp_code =? 451); [|by apply Hnext].
      destruct (handler_reconnect_r (smtp attempt));
        [by apply Hnext | by apply Hstop].
Qed.

(** A last attempt that raises, whatever becomes of its except clause:
    one more attempt on record, and [success] as it was. *)
Lemma retry_loop_last_raises smtp attempt st e :
  try_body (smtp attempt) = Raise e ->
  success (fst (retry_loop smtp [attempt] st)) = success st
  /\ attempts (fst (retry_loop smtp [attempt] st))
     = (attempts st ++ [attempt])%list.
Proof.
  intros Hbody. simpl. rewrite Hbody.
  destruct e; simpl; try done.
  - by destruct (handler_reconnect_r (smtp attempt)).
  - destruct (smtp_code =? 451); [|done].
    by destruct (handler_reconnect_r (smtp attempt)).
Qed.

(** Without [success] nothing is marked read, and the pass does not end
    as [Sent]. *)
Lemma process_message_unsent env mark_read email_thread :
  success (fst (send_with_retry (smtp env))) = false ->
  marked_read (process_message env mark_read email_thread) = []
  /\ ended (process_message env mark_read email_thread) <> Ok Sent.
Proof.
  intros Hfalse. unfold process_message.
  destruct (py_last email_thread) as [most_recent|]; [|done].
  destruct (respond_r env) as [[response|]|]; [|done..].
  destruct (send_with_retry (smtp env)) as [st [e|]]; [done |].
  simpl in Hfalse. by rewrite Hfalse.
Qed.

(** What was slept stays on record. *)
Lemma retry_loop_sleeps_prefix smtp todo st :
  sleeps st `prefix_of` sleeps (fst (retry_loop smtp todo st)).
Proof.
  revert st. induction todo as [|attempt rest IH]; intros st; [done |].
  assert (forall st', sleeps st `prefix_of` sleeps st' ->
            sleeps st `prefix_of` sleeps (fst (retry_loop smtp rest st')))
    as Hnext by (intros st' Hst'; etrans; [exact Hst' | apply IH]).
  assert (forall e, sleeps st `prefix_of`
            sleeps (back_off (caught e (begin_attempt attempt st)))) as Hgrow
    by (intros e; simpl; by apply prefix_app_r).
  simpl. destruct (try_body (smtp attempt)) as [[]|e]; [done |].
  destruct e; simpl;
    try (apply Hnext; apply Hgrow); try done.
  - destruct (handler_reconnect_r (smtp attempt)); [by apply Hnext | done].
  - destruct (smtp_code =? 451); [|apply Hnext; apply Hgrow].
    destruct (handler_reconnect_r (smtp attempt));
      [apply Hnext; apply Hgrow | apply Hgrow].
Qed.

(** [n] timeouts in a row, from attempt [a] on: [n] delays, each the
    double of the one before, starting from the delay in force. *)
Lemma retry_loop_timeouts smtp n : forall a rest st,
  (forall i, (a <= i < a + n)%nat -> times_out (smtp i)) ->
  exists st',
    retry_loop smtp (seq a n ++ rest) st = retry_loop smtp rest st'
    /\ sleeps st'
       = (sleeps st
          ++ ((fun i : nat => retry_delay st * 2 ^ Z.of_nat i) <$> seq 0 n))%list
    /\ retry_delay st' = retry_delay st * 2 ^ Z.of_nat n.
Proof.
  induction n as [|n IH]; intros a rest st Hfail.
  - exists st. simpl. rewrite app_nil_r. repeat split; lia.
  - destruct (Hfail a ltac:(lia)) as [Hbody Hreconnect].
    simpl seq. simpl app. simpl retry_loop. rewrite Hbody, Hreconnect. simpl.
    destruct (IH (S a) rest
                (reconnected a (back_off (caught (SMTPResponseException 451)
                                            (begin_attempt a st)))))
      as (st' & Hloop & Hsleeps & Hdelay).
    { intros i Hi. apply Hfail. lia. }
    exists st'. split; [exact Hloop |]. simpl in Hsleeps, Hdelay. split.
    + rewrite Hsleeps, <-app_assoc. simpl. f_equal.
      rewrite Z.mul_1_r. f_equal.
      rewrite <-(fmap_S_seq 0), <-list_fmap_compose. apply list_fmap_ext.
      intros _ i _. simpl. rewrite Nat2Z.inj_succ, Z.pow_succ_r by lia. lia.
    + rewrite Hdelay, Nat2Z.inj_succ, Z.pow_succ_r by lia. lia.
Qed.

(** The first [n] attempts time out: the first [n] delays of the delivery
    are 2, 4, ... *)
Lemma send_with_retry_timeouts smtp n :
  (n <= max_retries)%nat ->
  (forall i, (1 <= i <= n)%nat -> times_out (smtp i)) ->
  take n (sleeps (fst (send_with_retry smtp))) = doubling n.
Proof.
  intros Hn Hfail. unfold send_with_retry.
  replace (seq 1 max_retries) with (seq 1 n ++ seq (1 + n) (max_retries - n))%list
    by (rewrite <-seq_app; f_equal; lia).
  destruct (retry_loop_timeouts smtp n 1 (seq (1 + n) (max_retries - n))
              {| retry_delay := 2; success := false; attempts := [];
                 failures := []; sleeps := []; reconnects := [] |})
    as (st' & -> & Hsleeps & _).
  { intros i Hi. apply Hfail. lia. }
  simpl in Hsleeps.
  destruct (retry_loop_sleeps_prefix smtp (seq (1 + n) (max_retries - n)) st')
    as [more ->].
  rewrite Hsleeps. fold (doubling n).
  rewrite take_app_length'; [done |]. unfold doubling.
  by rewrite length_fmap, length_seq.
Qed.

(** Never more than [max_retries] attempts. *)
Lemma send_with_retry_bound smtp :
  (length (attempts (fst (send_with_retry smtp))) <= max_retries)%nat.
Proof.
  destruct (retry_loop_attempts smtp (seq 1 max_retries)
              {| retry_delay := 2; success := false; attempts := [];
                 failures := []; sleeps := []; reconnects := [] |})
    as (d & Hd & Hpre).
  unfold send_with_retry. rewrite Hd. simpl.
  apply prefix_length in Hpre. by rewrite length_seq in Hpre.
Qed.
End retry.

(** C6.  When the first two attempts fail: if the third goes through, the
    loop ends with [success] after the attempts 1, 2, 3 and the pass ends as
    [Sent]; if the third raises too, the loop is left without [success]
    after the attempts 1, 2, 3, nothing is marked read, and the pass ends as
    [Failed] once the except clause of the third attempt has run.  No
    delivery makes more than three attempts. *)
Theorem delivery_retry_bound
    (env : Emailer.message_env) (mark_read : bool) (email_thread : list Email)
    (most_recent response : Email) :
  last email_thread = Some most_recent ->
  Emailer.respond_r env = Ok (Some response) ->
  Delivery.fails (Emailer.smtp env 1) = true ->
  Delivery.fails (Emailer.smtp env 2) = true ->
  (Emailer.try_body (Emailer.smtp env 3) = Ok () ->
   exists st,
     Emailer.send_with_retry (Emailer.smtp env) = (st, None)
     /\ Emailer.success st = true
     /\ Emailer.attempts st = [1; 2; 3]%nat
     /\ Emailer.ended (Emailer.process_message env false email_thread)
        = Ok Emailer.Sent)
  /\ (forall e3,
        Emailer.try_body (Emailer.smtp env 3) = Raise e3 ->
        Emailer.success (fst (Emailer.send_with_retry (Emailer.smtp env)))
        = false
        /\ Emailer.attempts (fst (Emailer.send_with_retry (Emailer.smtp env)))
           = [1; 2; 3]%nat
        /\ Emailer.marked_read
             (Emailer.process_message env mark_read email_thread) = []
        /\ Emailer.ended (Emailer.process_message env mark_read email_thread)
           <> Ok Emailer.Sent
        /\ (Delivery.fails (Emailer.smtp env 3) = true ->
            Emailer.ended (Emailer.process_message env mark_read email_thread)
            = Ok Emailer.Failed))
  /\ (length (Emailer.attempts (fst (Emailer.send_with_retry (Emailer.smtp env))))
      <= 3)%nat.
Proof.
  intros Hlast Hrespond H1 H2.
  destruct (retry_loop_fails (Emailer.smtp env) 1 [2; 3]%nat
              {| Emailer.retry_delay := 2; Emailer.success := false;
                 Emailer.attempts := []; Emailer.failures := [];
                 Emailer.sleeps := []; Emailer.reconnects := [] |} H1)
    as (st1 & Hloop1 & Hatt1 & Hsucc1).
  destruct (retry_loop_fails (Emailer.smtp env) 2 [3]%nat st1 H2)
    as (st2 & Hloop2 & Hatt2 & Hsucc2).
  simpl in Hatt1, Hsucc1.
  assert (Emailer.send_with_retry (Emailer.smtp env)
          = Emailer.retry_loop (Emailer.smtp env) [3%nat] st2) as Hrun2.
  { unfold Emailer.send_with_retry. simpl seq. by rewrite Hloop1, Hloop2. }
  split; [|split].
  - intros H3.
    assert (Emailer.send_with_retry (Emailer.smtp env)
            = (Emailer.succeeded (Emailer.begin_attempt 3 st2), None)) as Hrun.
    { rewrite Hrun2. by apply retry_loop_succeeds. }
    eexists. split; [exact Hrun |]. split; [done |].
    split; [simpl; by rewrite Hatt2, Hatt1 |].
    unfold Emailer.process_message, py_last.
    by rewrite Hlast, Hrespond, Hrun.
  - intros e3 H3.
    destruct (retry_loop_last_raises (Emailer.smtp env) 3 st2 e3 H3)
      as [Hsucc3 Hatt3].
    rewrite <-Hrun2 in Hsucc3, Hatt3.
    assert (Emailer.success (fst (Emailer.send_with_retry (Emailer.smtp env)))
            = false) as Hfalse by congruence.
    split; [exact Hfalse |].
    split; [by rewrite Hatt3, Hatt2, Hatt1 |].
    destruct (process_message_unsent env mark_read email_thread Hfalse)
      as [Hunread Hunsent].
    split; [exact Hunread |]. split; [exact Hunsent |].
    intros Hfails3.
    destruct (retry_loop_fails (Emailer.smtp env) 3 [] st2 Hfails3)
      as (st3 & Hloop3 & _ & _).
    unfold Emailer.process_message, py_last.
    rewrite Hlast, Hrespond. rewrite Hrun2, Hloop3 in Hfalse |- *.
    simpl in Hfalse |- *. by rewrite Hfalse.
  - apply (send_with_retry_bound (Emailer.smtp env)).
Qed.

(** A timeout and a disconnect, then a send that goes through; and the
    same two failures followed by a third. *)
Lemma delivery_retry_bound_witness :
  (exists st,
     Emailer.send_with_retry
       (Delivery.failing [SMTPResponseException 451; SMTPServerDisconnected])
     = (st, None)
     /\ Emailer.success st = true /\ Emailer.attempts st = [1; 2; 3]%nat
     /\ Emailer.ended
          (Emailer.process_message
             (Delivery.replying [SMTPResponseException 451;
                                 SMTPServerDisconnected])
             false [Delivery.unread])
        = Ok Emailer.Sent)
  /\ Emailer.attempts
       (fst (Emailer.send_with_retry
               (Delivery.failing [SMTPResponseException 451;
                                  SMTPServerDisconnected; ConnectionError])))
     = [1; 2; 3]%nat
  /\ Emailer.marked_read
       (Emailer.process_message
          (Delivery.replying [SMTPResponseException 451;
                              SMTPServerDisconnected; ConnectionError])
          true [Delivery.unread]) = []
  /\ Emailer.ended
       (Emailer.process_message
          (Delivery.replying [SMTPResponseException 451;
                              SMTPServerDisconnected; ConnectionError])
          true [Delivery.unread])
     = Ok Emailer.Failed.
Proof.
  split.
  - exact (proj1 (delivery_retry_bound
      (Delivery.replying [SMTPResponseException 451; SMTPServerDisconnected])
      true [Delivery.unread] Delivery.unread Delivery.reply_to_alice
      eq_refl eq_refl eq_refl eq_refl) eq_refl).
  - pose proof (proj1 (proj2 (delivery_retry_bound
      (Delivery.replying [SMTPResponseException 451; SMTPServerDisconnected;
                          ConnectionError])
      true [Delivery.unread] Delivery.unread Delivery.reply_to_alice
      eq_refl eq_refl eq_refl eq_refl)) ConnectionError eq_refl)
      as (_ & Hattempts & Hunread & _ & Hfailed).
    split; [exact Hattempts |]. split; [exact Hunread | exact (Hfailed eq_refl)].
Defined.

(** C7.  When the first [n] attempts of a delivery fail in the
    rate/timeout class, its first [n] delays are 2, 4, ...  In every
    delivery the delays are 2, 4, 8, ..., one for each caught failure other
    than a disconnect, each the double of the one before.  A disconnect
    whose reconnection goes through leads straight to the next attempt,
    with nothing slept and the delay as it was. *)
Theorem backoff_doubles
    (timing_out : nat -> Emailer.smtp_attempt) (n : nat)
    (smtp : nat -> Emailer.smtp_attempt) (attempt : nat) (rest : list nat)
    (st : Emailer.delivery_state) :
  (n <= Emailer.max_retries)%nat ->
  (forall i, (1 <= i <= n)%nat -> Delivery.times_out (timing_out i)) ->
  Emailer.try_body (smtp attempt) = Raise SMTPServerDisconnected ->
  Emailer.handler_reconnect_r (smtp attempt) = Ok () ->
  take n (Emailer.sleeps (fst (Emailer.send_with_retry timing_out)))
  = Delivery.doubling n
  /\ (forall smtp',
        Emailer.sleeps (fst (Emailer.send_with_retry smtp'))
        = Delivery.doubling
            (length (List.filter Delivery.backs_off
                       (Emailer.failures (fst (Emailer.send_with_retry smtp'))))))
  /\ (exists st',
        Emailer.retry_loop smtp (attempt :: rest) st
        = Emailer.retry_loop smtp rest st'
        /\ Emailer.sleeps st' = Emailer.sleeps st
        /\ Emailer.retry_delay st' = Emailer.retry_delay st
        /\ Emailer.reconnects st' = (Emailer.reconnects st ++ [attempt])%list).
Proof.
  intros Hn Htimeouts Hbody Hreconnect.
  split; [by apply send_with_retry_timeouts |].
  split; [apply send_with_retry_sleeps |].
  simpl. rewrite Hbody, Hreconnect. eexists. split; [reflexivity |]. done.
Qed.

(** Three timeouts: 2, 4, 8.  A disconnect between two timeouts: 2, 4. *)
Lemma backoff_doubles_witness :
  take 3 (Emailer.sleeps
            (fst (Emailer.send_with_retry
                    (Delivery.failing [SMTPResponseException 451;
                                       SMTPResponseException 451;
                                       SMTPResponseException 451]))))
  = [2; 4; 8]
  /\ Emailer.sleeps
       (fst (Emailer.send_with_retry
               (Delivery.failing [SMTPResponseException 451;
                                  SMTPServerDisconnected;
                                  SMTPResponseException 451])))
     = [2; 4]
  /\ (exists st',
        Emailer.retry_loop
          (Delivery.failing [SMTPResponseException 451; SMTPServerDisconnected;
                             SMTPResponseException 451])
          [2; 3]%nat
          {| Emailer.retry_delay := 4; Emailer.success := false;
             Emailer.attempts := [1%nat];
             Emailer.failures := [SMTPResponseException 451];
             Emailer.sleeps := [2]; Emailer.reconnects := [1%nat] |}
        = Emailer.retry_loop
            (Delivery.failing [SMTPResponseException 451; SMTPServerDisconnected;
                               SMTPResponseException 451])
            [3%nat] st'
        /\ Emailer.sleeps st' = [2]
        /\ Emailer.retry_delay st' = 4
        /\ Emailer.reconnects st' = [1; 2]%nat).
Proof.
  pose proof (backoff_doubles
    (Delivery.failing [SMTPResponseException 451; SMTPResponseException 451;
                       SMTPResponseException 451])
    3%nat
    (Delivery.failing [SMTPResponseException 451; SMTPServerDisconnected;
                       SMTPResponseException 451])
    2%nat [3%nat]
    {| Emailer.retry_delay := 4; Emailer.success := false;
       Emailer.attempts := [1%nat];
       Emailer.failures := [SMTPResponseException 451];
       Emailer.sleeps := [2]; Emailer.reconnects := [1%nat] |}
    (le_n 3)
    (fun i Hi =>
       match i as j return (1 <= j <= 3)%nat -> Delivery.times_out
                             (Delivery.failing [SMTPResponseException 451;
                                                SMTPResponseException 451;
                                                SMTPResponseException 451] j)
       with
       | 1%nat | 2%nat | 3%nat => fun _ => conj eq_refl eq_refl
       | _ => fun H => ltac:(lia)
       end Hi)
    eq_refl eq_refl) as (Hrun & Hsleeps & Hstep).
  split; [exact Hrun |]. split; [exact (Hsleeps _) | exact Hstep].
Defined.

(** ** The approval rendezvous *)

Section rendezvous.
Import TelegramBot Approval.

Lemma effect_log q a b : from_callback a -> effect q b (log a b).
Proof.
  intros Ha. split; [|by left]. exists [a]. split; [done | by constructor].
Qed.

Lemma effect_fault q e b : effect q b (fault q e b).
Proof.
  unfold fault.
  destruct (is_Exception e); [destruct (error_edit_r q) |];
    by apply effect_log.
Qed.

Lemma effect_same q b : effect q b b.
Proof. split; [|by left]. exists []. by rewrite app_nil_r. Qed.

Lemma effect_commit q pa c b :
  pending_actions b !! cb_email_id q = Some pa ->
  effect q b (callback_commit q c b).
Proof.
  intros Hpa. unfold callback_commit.
  destruct (edit_r q) as [[]|e1]; [|apply effect_fault].
  unfold write_decision. simpl. rewrite Hpa. split.
  - exists [Replied (cb_email_id q) (snd c); Decided (cb_email_id q) (fst c)].
    split; [simpl; by rewrite <-app_assoc | by repeat constructor].
  - right. by exists pa, (fst c).
Qed.

(** What a callback can do to the bot: nothing but logging, or write a
    decision into the entry of its key and set that entry's event. *)
Lemma callback_effect q b : effect q b (_button_callback q b).
Proof.
  unfold _button_callback, callback_lookup.
  destruct (answer_r q) as [[]|e0]; [|by apply effect_log].
  destruct (String.eqb (cb_action q) "test").
  { destruct (edit_r q); [by apply effect_log | apply effect_fault]. }
  destruct (pending_actions b !! cb_email_id q) as [pa|] eqn:Hpa.
  2:{ destruct (edit_r q); [by apply effect_log | apply effect_fault]. }
  destruct (py_last (email_thread pa)); [|apply effect_fault].
  destruct (String.eqb (cb_action q) "send"); [by eapply effect_commit |].
  destruct (String.eqb (cb_action q) "draft"); [by eapply effect_commit |].
  apply effect_same.
Qed.

Lemma decided_same pa : decided pa (pa_result pa) = pa.
Proof. by destruct pa. Qed.

Lemma effect_no_entry q b b' :
  effect q b b' -> pending_actions b !! cb_email_id q = None ->
  pending_actions b' = pending_actions b /\ events b' = events b.
Proof.
  intros [_ [Hsame | (pa & d & Hpa & _)]] Hnone; [done | congruence].
Qed.

Lemma effect_other_key q b b' k :
  effect q b b' -> cb_email_id q <> k ->
  pending_actions b' !! k = pending_actions b !! k.
Proof.
  intros [_ [[-> _] | (pa & d & _ & -> & _)]] Hne; [done |].
  by rewrite lookup_insert_ne.
Qed.

(** A callback neither adds nor removes an entry, and changes at most
    the decision of one. *)
Lemma effect_entry q b b' k pa :
  effect q b b' -> pending_actions b !! k = Some pa ->
  exists d, pending_actions b' !! k = Some (decided pa d).
Proof.
  intros [_ [[-> _] | (pa' & d & Hpa' & -> & _)]] Hpa.
  - exists (pa_result pa). by rewrite decided_same.
  - destruct (decide (cb_email_id q = k)) as [<-|Hne].
    + rewrite lookup_insert_eq. exists d. congruence.
    + rewrite lookup_insert_ne by done.
      exists (pa_result pa). by rewrite decided_same.
Qed.

Lemma effect_absent q b b' k :
  effect q b b' -> pending_actions b !! k = None ->
  pending_actions b' !! k = None.
Proof.
  intros [_ [[-> _] | (pa' & d & Hpa' & -> & _)]] Hnone; [done |].
  rewrite lookup_insert_ne; [done | congruence].
Qed.

Lemma effect_events_length q b b' :
  effect q b b' -> length (events b') = length (events b).
Proof.
  intros [_ [[_ ->] | (pa' & d & _ & _ & ->)]]; [done |].
  apply length_insert.
Qed.

Lemma effect_well_formed q b b' :
  effect q b b' -> well_formed b -> well_formed b'.
Proof.
  intros Heff Hwf k pa' Hpa'.
  rewrite (effect_events_length q b b' Heff).
  destruct (pending_actions b !! k) as [pa|] eqn:Hpa.
  - destruct (effect_entry q b b' k pa Heff Hpa) as [d Hd].
    rewrite Hd in Hpa'. injection Hpa' as <-. simpl. by eapply Hwf.
  - by rewrite (effect_absent q b b' k Heff Hpa) in Hpa'.
Qed.

(** The same facts for the presses handled during one suspension. *)
Lemma run_callbacks_snoc qs q b :
  run_callbacks (qs ++ [q]) b = _button_callback q (run_callbacks qs b).
Proof. unfold run_callbacks. by rewrite foldl_app. Qed.

Lemma run_callbacks_entry qs b k pa :
  pending_actions b !! k = Some pa ->
  exists d, pending_actions (run_callbacks qs b) !! k = Some (decided pa d).
Proof.
  revert b pa. induction qs as [|q qs IH]; intros b pa Hpa; simpl.
  - exists (pa_result pa). by rewrite decided_same.
  - destruct (effect_entry q b _ k pa (callback_effect q b) Hpa) as [d Hd].
    destruct (IH _ _ Hd) as [d' Hd']. by exists d'.
Qed.

Lemma run_callbacks_absent qs b k :
  pending_actions b !! k = None ->
  pending_actions (run_callbacks qs b) !! k = None.
Proof.
  revert b. induction qs as [|q qs IH]; intros b Hnone; [done |].
  simpl. apply IH. by eapply effect_absent; [apply callback_effect |].
Qed.

Lemma run_callbacks_events_length qs b :
  length (events (run_callbacks qs b)) = length (events b).
Proof.
  revert b. induction qs as [|q qs IH]; intros b; [done |].
  simpl. rewrite IH. by eapply effect_events_length, callback_effect.
Qed.

Lemma run_callbacks_well_formed qs b :
  well_formed b -> well_formed (run_callbacks qs b).
Proof.
  revert b. induction qs as [|q qs IH]; intros b Hwf; [done |].
  simpl. apply IH. by eapply effect_well_formed; [apply callback_effect |].
Qed.

Lemma run_callbacks_trace qs b :
  exists t, trace (run_callbacks qs b) = (trace b ++ t)%list
            /\ Forall from_callback t.
Proof.
  revert b. induction qs as [|q qs IH]; intros b; simpl.
  - exists []. by rewrite app_nil_r.
  - destruct (callback_effect q b) as [(t1 & Ht1 & Hf1) _].
    destruct (IH (_button_callback q b)) as (t2 & Ht2 & Hf2).
    exists (t1 ++ t2)%list. rewrite Ht2, Ht1, <-app_assoc.
    split; [done | by apply Forall_app].
Qed.

(** The wait handles a prefix of the presses, one after the other, and
    stops at the first state in which the event is set. *)
Lemma run_until_set_split ev qs b :
  exists pre,
    qs = (pre ++ snd (run_until_set ev qs b))%list
    /\ fst (run_until_set ev qs b) = run_callbacks pre b
    /\ (is_set ev (fst (run_until_set ev qs b)) = false ->
        snd (run_until_set ev qs b) = [])
    /\ (forall p q p', pre = (p ++ q :: p')%list ->
                       is_set ev (run_callbacks p b) = false).
Proof.
  revert b. induction qs as [|q rest IH]; intros b; simpl.
  - exists []. repeat split; try done. by intros [|??] ??.
  - destruct (is_set ev b) eqn:Hset; simpl.
    + exists []. repeat split; try done.
      * congruence.
      * by intros [|??] ??.
    + destruct (IH (_button_callback q b)) as (pre & Hqs & Hfst & Hleft & Hpre).
      exists (q :: pre). split; [by rewrite <-app_comm_cons, <-Hqs |].
      split; [exact Hfst |]. split; [exact Hleft |].
      intros [|q1 p] q0 p' Heq; [done |].
      injection Heq as <- Heq. simpl. by eapply Hpre.
Qed.

(** A callback that read the entry before it was removed and resumes
    after: the subscript raises [KeyError] and nothing is written. *)
Lemma callback_commit_no_entry q c b :
  pending_actions b !! cb_email_id q = None ->
  pending_actions (callback_commit q c b) = pending_actions b
  /\ events (callback_commit q c b) = events b.
Proof.
  intros Hnone. unfold callback_commit, write_decision.
  assert (forall e, pending_actions (fault q e b) = pending_actions b
                    /\ events (fault q e b) = events b) as Hfault.
  { intros e. unfold fault.
    by destruct (is_Exception e); [destruct (error_edit_r q) |]. }
  destruct (edit_r q) as [[]|e]; [|apply Hfault].
  simpl. rewrite Hnone. unfold fault. simpl.
  by destruct (error_edit_r q).
Qed.

(** A press for a key without an entry is answered "expired". *)
Lemma callback_expired q b :
  pending_actions b !! cb_email_id q = None ->
  cb_action q <> "test" -> answer_r q = Ok () -> edit_r q = Ok () ->
  _button_callback q b = log (Replied (cb_email_id q) Expired) b.
Proof.
  intros Hnone Htest Hanswer Hedit. unfold _button_callback, callback_lookup.
  apply String.eqb_neq in Htest. by rewrite Hanswer, Htest, Hnone, Hedit.
Qed.


End rendezvous.

Section rendezvous_runs.
Import TelegramBot Approval.

(** [notify] registers nothing. *)
Lemma notify_absent env unique_id b k :
  pending_actions b !! k = None ->
  pending_actions (fst (notify env unique_id b)) !! k = None.
Proof.
  intros Hnone. unfold notify.
  destruct (send_html_r env) as [m|e]; simpl.
  - by apply run_callbacks_absent.
  - destruct (is_Exception e); simpl; [|by apply run_callbacks_absent].
    destruct (send_plain_r env); simpl;
      by do 2 apply run_callbacks_absent.
Qed.

Lemma notify_well_formed env unique_id b :
  well_formed b -> well_formed (fst (notify env unique_id b)).
Proof.
  intros Hwf. unfold notify.
  destruct (send_html_r env) as [m|e]; simpl.
  - by apply run_callbacks_well_formed.
  - destruct (is_Exception e); simpl; [|by apply run_callbacks_well_formed].
    destruct (send_plain_r env); simpl;
      by do 2 apply run_callbacks_well_formed.
Qed.

Lemma from_callback_not_registered unique_id t :
  Forall from_callback t -> Forall (fun a => a <> Registered unique_id) t.
Proof. intros H. eapply Forall_impl; [exact H |]. by intros [] Ha. Qed.

(** When [notify] returns, its trace ends with the notification and the
    presses handled while that send was awaited. *)
Lemma notify_trace env unique_id b sent_message :
  snd (notify env unique_id b) = Ok sent_message ->
  exists pre html t1,
    trace (fst (notify env unique_id b))
    = (trace b ++ pre ++ Notified unique_id html :: t1)%list
    /\ Forall (fun a => a <> Registered unique_id) pre
    /\ Forall from_callback t1.
Proof.
  unfold notify. destruct (send_html_r env) as [m|e]; simpl.
  - intros _.
    destruct (run_callbacks_trace (during_send_html env)
                (log (Notified unique_id true) b)) as (t1 & Ht1 & Hf1).
    exists [], true, t1. simpl in Ht1 |- *.
    by rewrite Ht1, <-app_assoc.
  - destruct (is_Exception e); simpl; [|done].
    destruct (send_plain_r env) as [m|e']; simpl; [|done]. intros _.
    destruct (run_callbacks_trace (during_send_html env)
                (log (NotifyFailed unique_id true e) b)) as (t0 & Ht0 & Hf0).
    destruct (run_callbacks_trace (during_send_plain env)
                (log (Notified unique_id false)
                   (run_callbacks (during_send_html env)
                      (log (NotifyFailed unique_id true e) b))))
      as (t1 & Ht1 & Hf1).
    exists (NotifyFailed unique_id true e :: t0), false, t1.
    simpl in Ht0, Ht1 |- *. rewrite Ht1, Ht0, <-!app_assoc. simpl.
    split; [done |]. split; [|done].
    constructor; [done | by apply from_callback_not_registered].
Qed.

Lemma deregister_trace unique_id b b' :
  deregister unique_id b = Ok b' ->
  trace b' = (trace b ++ [Deregistered unique_id])%list
  /\ pending_actions b' = delete unique_id (pending_actions b).
Proof.
  unfold deregister. destruct (pending_actions b !! unique_id); [|done].
  by intros [= <-].
Qed.

(** The wait only adds to the trace. *)
Lemma wait_for_action_trace env unique_id ev b :
  exists t, trace (fst (wait_for_action env unique_id ev b))
            = (trace b ++ t)%list.
Proof.
  unfold wait_for_action.
  destruct (run_until_set_split ev (during_wait env) b) as (pre & _ & Hfst & _).
  destruct (run_until_set ev (during_wait env) b) as [b1 late].
  simpl in Hfst. subst b1.
  destruct (run_callbacks_trace pre b) as (t1 & Ht1 & _).
  set (b1 := run_callbacks pre b) in *.
  destruct (is_set ev b1).
  - simpl. destruct (pending_actions b1 !! unique_id) as [pa|] eqn:Hpa; simpl.
    + unfold deregister. simpl. rewrite Hpa. simpl.
      match goal with
      | |- context [run_callbacks late ?b2] =>
          destruct (run_callbacks_trace late b2) as (t2 & -> & _)
      end.
      simpl. eexists. by rewrite Ht1, <-!app_assoc.
    + match goal with
      | |- context [run_callbacks late ?b2] =>
          destruct (run_callbacks_trace late b2) as (t2 & -> & _)
      end.
      simpl. eexists. by rewrite Ht1, <-!app_assoc.
  - destruct (withdraw_r env) as [[]|e]; simpl.
    + destruct (run_callbacks_trace (during_withdraw env)
                  (log (Withdrawn unique_id) (log (TimedOut unique_id) b1)))
        as (t2 & Ht2 & _).
      set (b2 := run_callbacks (during_withdraw env) _) in *.
      destruct (deregister unique_id b2) as [b3|] eqn:Hdereg; simpl.
      * apply deregister_trace in Hdereg as [-> _]. rewrite Ht2. simpl.
        eexists. by rewrite Ht1, <-!app_assoc.
      * rewrite Ht2. simpl. eexists. by rewrite Ht1, <-!app_assoc.
    + destruct (run_callbacks_trace (during_withdraw env)
                  (log (WithdrawFailed unique_id e) (log (TimedOut unique_id) b1)))
        as (t2 & Ht2 & _).
      rewrite Ht2. simpl. eexists. by rewrite Ht1, <-!app_assoc.
Qed.
End rendezvous_runs.

(** C1, as stated, fails.  The notification for message 2 is out before
    the entry exists: a press of "Send" handled while the send is still
    awaited finds no entry, is answered "expired" and is lost; the entry is
    registered afterwards and the wait ends in the timeout. *)
Lemma notification_precedes_registration :
  let run := TelegramBot.notify_and_wait_for_action Approval.pressed_early
               [Approval.question] Approval.draft Approval.fresh in
  TelegramBot.trace (fst run)
  = [TelegramBot.Notified "2" true;
     TelegramBot.Replied "2" TelegramBot.Expired;
     TelegramBot.Registered "2";
     TelegramBot.TimedOut "2";
     TelegramBot.Withdrawn "2";
     TelegramBot.Deregistered "2"]
  /\ snd run = Ok None
  /\ TelegramBot.pending_actions
       (fst (TelegramBot.notify Approval.pressed_early "2" Approval.fresh))
       !! "2" = None.
Proof. repeat split; reflexivity. Qed.

Section quiet_wait.
Import TelegramBot Approval.

Lemma fresh_well_formed : well_formed fresh.
Proof. intros k pa H. simpl in H. by rewrite lookup_empty in H. Qed.

(** Presses for other keys leave an entry and its unset event alone, as
    long as no other entry names that event. *)
Lemma run_callbacks_other_keys qs b unique_id pa ev :
  Forall (fun q => cb_email_id q <> unique_id) qs ->
  pending_actions b !! unique_id = Some pa ->
  events b !! ev = Some false ->
  (forall k pa', k <> unique_id -> pending_actions b !! k = Some pa' ->
                 event pa' <> ev) ->
  pending_actions (run_callbacks qs b) !! unique_id = Some pa
  /\ is_set ev (run_callbacks qs b) = false.
Proof.
  intros Hqs. revert b.
  induction Hqs as [|q qs Hq _ IH]; intros b Hpa Hev Hothers.
  - split; [done |]. unfold is_set, run_callbacks. simpl. by rewrite Hev.
  - simpl. pose proof (callback_effect q b) as Heff.
    apply IH.
    + by rewrite (effect_other_key q b _ unique_id Heff Hq).
    + destruct Heff as [_ [[_ ->] | (pa' & d & Hpa' & _ & ->)]]; [done |].
      rewrite list_lookup_insert_ne; [done |]. by eapply Hothers.
    + intros k pa'' Hk Hpa''.
      destruct Heff as [_ [[Hsame _] | (pa' & d & Hpa' & Hins & _)]].
      * rewrite Hsame in Hpa''. by eapply Hothers.
      * rewrite Hins in Hpa''.
        destruct (decide (cb_email_id q = k)) as [<-|Hne].
        -- rewrite lookup_insert_eq in Hpa''. injection Hpa'' as <-. simpl.
           by eapply Hothers.
        -- rewrite lookup_insert_ne in Hpa'' by done. by eapply Hothers.
Qed.

(** [well_formed] holds of every bot the calls can produce. *)
Lemma register_well_formed unique_id thread draft b :
  well_formed b -> well_formed (fst (register unique_id thread draft b)).
Proof.
  intros Hwf k pa. simpl. rewrite length_app. simpl.
  destruct (decide (unique_id = k)) as [->|Hne].
  - rewrite lookup_insert_eq. intros [= <-]. simpl. lia.
  - rewrite lookup_insert_ne by done. intros Hpa.
    specialize (Hwf k pa Hpa). lia.
Qed.

Lemma log_well_formed a b : well_formed b -> well_formed (log a b).
Proof. done. Qed.

Lemma deregister_well_formed unique_id b b' :
  deregister unique_id b = Ok b' -> well_formed b -> well_formed b'.
Proof.
  unfold deregister. destruct (pending_actions b !! unique_id); [|done].
  intros [= <-] Hwf k pa. simpl.
  destruct (decide (unique_id = k)) as [->|Hne].
  - by rewrite lookup_delete_eq.
  - rewrite lookup_delete_ne by done. apply Hwf.
Qed.

Lemma wait_for_action_well_formed env unique_id ev b :
  well_formed b -> well_formed (fst (wait_for_action env unique_id ev b)).
Proof.
  intros Hwf. unfold wait_for_action.
  destruct (run_until_set_split ev (during_wait env) b) as (pre & _ & Hfst & _).
  destruct (run_until_set ev (during_wait env) b) as [b1 late].
  simpl in Hfst. subst b1.
  pose proof (run_callbacks_well_formed pre b Hwf) as Hwf1.
  set (b1 := run_callbacks pre b) in *.
  destruct (is_set ev b1).
  - destruct (pending_actions (log (Woken unique_id) b1) !! unique_id);
      [|by apply run_callbacks_well_formed].
    destruct (deregister unique_id (log (Woken unique_id) b1)) as [b2|] eqn:Hd;
      [|by apply run_callbacks_well_formed].
    apply run_callbacks_well_formed. by eapply deregister_well_formed.
  - destruct (withdraw_r env) as [[]|e]; simpl.
    + set (b2 := run_callbacks (during_withdraw env) _).
      assert (well_formed b2) as Hwf2 by by apply run_callbacks_well_formed.
      destruct (deregister unique_id b2) as [b3|] eqn:Hd; [|done].
      by eapply deregister_well_formed.
    + by apply run_callbacks_well_formed.
Qed.

Lemma notify_and_wait_for_action_well_formed env email_thread draft_email b :
  well_formed b ->
  well_formed (fst (notify_and_wait_for_action env email_thread draft_email b)).
Proof.
  intros Hwf. unfold notify_and_wait_for_action.
  destruct (last email_thread) as [most_recent|]; [|done].
  pose proof (notify_well_formed env (unique_id_of env most_recent) b Hwf)
    as Hwf1.
  destruct (notify env (unique_id_of env most_recent) b) as [b1 [m|e]]; [|done].
  pose proof (register_well_formed (unique_id_of env most_recent) email_thread
                draft_email b1 Hwf1) as Hwf2.
  destruct (register _ _ _ b1) as [b2 ev].
  by apply wait_for_action_well_formed.
Qed.
End quiet_wait.

(** C1, amended.  In every call whose notification goes out, the
    notification comes first and the entry is registered once that send has
    returned, after the presses handled meanwhile and before the wait; until
    then no entry exists for a key that had none; and a press for a key
    without an entry writes nothing: it is answered "expired". *)
Theorem notification_then_registration
    (env : TelegramBot.approval_env) (email_thread : list Email)
    (draft_email most_recent : Email) (b : TelegramBot.bot)
    (sent_message : nat) (q : TelegramBot.callback_query) :
  last email_thread = Some most_recent ->
  snd (TelegramBot.notify env (TelegramBot.unique_id_of env most_recent) b)
  = Ok sent_message ->
  TelegramBot.pending_actions b !! TelegramBot.unique_id_of env most_recent
  = None ->
  TelegramBot.pending_actions b !! TelegramBot.cb_email_id q = None ->
  TelegramBot.cb_action q <> "test" ->
  TelegramBot.answer_r q = Ok () ->
  TelegramBot.edit_r q = Ok () ->
  (exists pre html t1 t2,
     TelegramBot.trace
       (fst (TelegramBot.notify_and_wait_for_action env email_thread
               draft_email b))
     = (TelegramBot.trace b ++ pre
        ++ TelegramBot.Notified (TelegramBot.unique_id_of env most_recent) html
        :: t1
        ++ TelegramBot.Registered (TelegramBot.unique_id_of env most_recent)
        :: t2)%list
     /\ Forall (fun a => a <> TelegramBot.Registered
                                (TelegramBot.unique_id_of env most_recent)) pre
     /\ Forall Approval.from_callback t1)
  /\ TelegramBot.pending_actions
       (fst (TelegramBot.notify env (TelegramBot.unique_id_of env most_recent) b))
       !! TelegramBot.unique_id_of env most_recent = None
  /\ TelegramBot._button_callback q b
     = TelegramBot.log
         (TelegramBot.Replied (TelegramBot.cb_email_id q) TelegramBot.Expired) b.
Proof.
  intros Hlast Hsent Hfree Hnone Htest Hanswer Hedit.
  split; [|split; [by apply notify_absent | by apply callback_expired]].
  destruct (notify_trace _ _ _ _ Hsent) as (pre & html & t1 & Ht1 & Hpre & Hf1).
  unfold TelegramBot.notify_and_wait_for_action. rewrite Hlast.
  destruct (TelegramBot.notify env (TelegramBot.unique_id_of env most_recent) b)
    as [b1 r]. simpl in Hsent, Ht1. subst r.
  unfold TelegramBot.register.
  match goal with
  | |- context [TelegramBot.wait_for_action ?e ?u ?ev ?b2] =>
      destruct (wait_for_action_trace e u ev b2) as (t2 & Ht2)
  end.
  exists pre, html, t1, t2. split; [|done].
  rewrite Ht2. simpl. rewrite Ht1, <-!app_assoc. done.
Qed.

Lemma notification_then_registration_witness :
  (exists pre html t1 t2,
     TelegramBot.trace
       (fst (TelegramBot.notify_and_wait_for_action Approval.pressed_early
               [Approval.question] Approval.draft Approval.fresh))
     = ([] ++ pre ++ TelegramBot.Notified "2" html :: t1
        ++ TelegramBot.Registered "2" :: t2)%list
     /\ Forall (fun a => a <> TelegramBot.Registered "2") pre
     /\ Forall Approval.from_callback t1)
  /\ TelegramBot._button_callback (Approval.press "send" "2") Approval.fresh
     = TelegramBot.log (TelegramBot.Replied "2" TelegramBot.Expired)
         Approval.fresh.
Proof.
  pose proof (notification_then_registration Approval.pressed_early
    [Approval.question] Approval.draft Approval.question Approval.fresh
    41%nat (Approval.press "send" "2")
    eq_refl eq_refl eq_refl eq_refl ltac:(discriminate) eq_refl eq_refl)
    as (Htrace & _ & Hpress).
  split; [exact Htrace | exact Hpress].
Defined.

(** ** The first decision *)

Section first_decision.
Import TelegramBot Approval.










End first_decision.



(** C3, as stated, fails.  Nothing is pressed and the withdrawal of the
    buttons raises: the exception leaves the wait, the entry stays in
    [pending_actions], nothing is returned; [respond] then takes the
    exception for a failure of the channel and hands the draft over for
    sending. *)
Lemma failed_withdrawal_is_fatal :
  let run := TelegramBot.notify_and_wait_for_action Approval.silent_stuck
               [Approval.question] Approval.draft Approval.fresh in
  snd run = Raise TelegramError
  /\ TelegramBot.pending_actions (fst run) !! "2"
     = Some {| TelegramBot.email_thread := [Approval.question];
               TelegramBot.draft_email := Approval.draft;
               TelegramBot.event := 0%nat;
               TelegramBot.pa_result := None |}
  /\ TelegramBot.trace (fst run)
     = [TelegramBot.Notified "2" true;
        TelegramBot.Registered "2";
        TelegramBot.TimedOut "2";
        TelegramBot.WithdrawFailed "2" TelegramError]
  /\ Main.outbox
       (fst (Main.handle_thread (Polls.smooth_with Approval.silent_stuck)
               [Polls.question] Polls.idle))
     = [Main.draft_reply (Polls.answering_with Approval.silent_stuck)
          Polls.question "Click Forgot Password."].
Proof. repeat split; reflexivity. Qed.

(** C3, amended.  When no press for the key is handled during the wait
    and the withdrawal of the buttons goes through, the call returns [None]
    (save as draft) and the entry is out of [pending_actions]. *)
Theorem timeout_saves_draft
    (env : TelegramBot.approval_env) (email_thread : list Email)
    (draft_email most_recent : Email) (b : TelegramBot.bot)
    (sent_message : nat) :
  Approval.well_formed b ->
  last email_thread = Some most_recent ->
  snd (TelegramBot.notify env (TelegramBot.unique_id_of env most_recent) b)
  = Ok sent_message ->
  Forall (fun q => TelegramBot.cb_email_id q
                   <> TelegramBot.unique_id_of env most_recent)
    (TelegramBot.during_wait env) ->
  TelegramBot.withdraw_r env = Ok () ->
  snd (TelegramBot.notify_and_wait_for_action env email_thread draft_email b)
  = Ok None
  /\ TelegramBot.pending_actions
       (fst (TelegramBot.notify_and_wait_for_action env email_thread
               draft_email b))
       !! TelegramBot.unique_id_of env most_recent = None.
Proof.
  intros Hwf Hlast Hsent Hquiet Hwithdraw.
  set (uid := TelegramBot.unique_id_of env most_recent) in *.
  unfold TelegramBot.notify_and_wait_for_action. rewrite Hlast. fold uid.
  pose proof (notify_well_formed env uid b Hwf) as Hwf1.
  destruct (TelegramBot.notify env uid b) as [b1 r]. simpl in Hsent, Hwf1.
  subst r. unfold TelegramBot.register, TelegramBot.wait_for_action.
  set (pa0 := {| TelegramBot.email_thread := email_thread;
                 TelegramBot.draft_email := draft_email;
                 TelegramBot.event := length (TelegramBot.events b1);
                 TelegramBot.pa_result := None |}).
  set (b2 := TelegramBot.log (TelegramBot.Registered uid) _).
  destruct (run_callbacks_other_keys (TelegramBot.during_wait env) b2 uid pa0
              (length (TelegramBot.events b1)) Hquiet) as [Hpa Hunset].
  { simpl. apply lookup_insert_eq. }
  { simpl. by rewrite lookup_app_r, Nat.sub_diag. }
  { intros k pa' Hk Hpa'. simpl in Hpa'.
    rewrite lookup_insert_ne in Hpa' by done.
    specialize (Hwf1 k pa' Hpa'). lia. }
  destruct (run_until_set_split (length (TelegramBot.events b1))
              (TelegramBot.during_wait env) b2) as (pre & Hpre & Hfst & Hleft & _).
  destruct (TelegramBot.run_until_set (length (TelegramBot.events b1))
              (TelegramBot.during_wait env) b2) as [b' late].
  simpl in Hpre, Hfst, Hleft. subst b'.
  assert (Forall (fun q => TelegramBot.cb_email_id q <> uid) pre) as Hquiet'.
  { rewrite Hpre in Hquiet. by apply Forall_app in Hquiet as [? _]. }
  destruct (run_callbacks_other_keys pre b2 uid pa0
              (length (TelegramBot.events b1)) Hquiet') as [_ Hunset'].
  { simpl. apply lookup_insert_eq. }
  { simpl. by rewrite lookup_app_r, Nat.sub_diag. }
  { intros k pa' Hk Hpa'. simpl in Hpa'.
    rewrite lookup_insert_ne in Hpa' by done.
    specialize (Hwf1 k pa' Hpa'). lia. }
  rewrite (Hleft Hunset'), app_nil_r in Hpre. subst pre.
  rewrite Hunset, Hwithdraw.
  set (b3 := TelegramBot.log (TelegramBot.Withdrawn uid) _).
  destruct (run_callbacks_entry (TelegramBot.during_withdraw env) b3 uid pa0 Hpa)
    as [d Hd].
  unfold TelegramBot.deregister. rewrite Hd. simpl.
  split; [done |]. apply lookup_delete_eq.
Qed.

Lemma timeout_saves_draft_witness :
  snd (TelegramBot.notify_and_wait_for_action Approval.silent
         [Approval.question] Approval.draft Approval.fresh) = Ok None
  /\ TelegramBot.pending_actions
       (fst (TelegramBot.notify_and_wait_for_action Approval.silent
               [Approval.question] Approval.draft Approval.fresh))
       !! "2" = None.
Proof.
  exact (timeout_saves_draft Approval.silent [Approval.question] Approval.draft
           Approval.question Approval.fresh 41%nat fresh_well_formed eq_refl
           eq_refl (Forall_nil_2 _) eq_refl).
Defined.

(** * Further properties *)

(** ** The REFERENCES fallback of [_get_email_thread] *)

Section references.
Import Emailer References.

Lemma append_cons c (s t : string) : String c s +:+ t = String c (s +:+ t).
Proof. reflexivity. Qed.

Lemma append_nil_l (t : string) : "" +:+ t = t.
Proof. reflexivity. Qed.

Lemma occurs_app c s t : occurs c (s +:+ t) = occurs c s || occurs c t.
Proof.
  induction s as [|c' s IH]; [done |].
  rewrite append_cons. simpl. rewrite IH. by destruct (Ascii.eqb c' c).
Qed.

Lemma append_assoc (s t u : string) : (s +:+ t) +:+ u = s +:+ (t +:+ u).
Proof.
  induction s as [|c s IH]; [done |]. rewrite !append_cons. by rewrite IH.
Qed.

Lemma append_empty_r (s : string) : s +:+ "" = s.
Proof. induction s as [|c s IH]; [done |]. rewrite append_cons. by rewrite IH. Qed.

Lemma append_snoc acc c t : (acc +:+ String c "") +:+ t = acc +:+ String c t.
Proof. by rewrite append_assoc. Qed.

(** Inside a bracket: the text up to the next [>] is the rest of the
    token. *)
Lemma findall_refs_close acc t rest :
  occurs ">" t = false -> truthy (acc +:+ t) = true ->
  findall_refs_from (Some acc) (t +:+ String ">" rest)
  = (acc +:+ t) :: findall_refs_from None rest.
Proof.
  revert acc. induction t as [|c t IH]; intros acc Hgt Hne.
  - rewrite append_nil_l. simpl. rewrite append_empty_r in Hne |- *.
    by rewrite Hne.
  - rewrite append_cons. simpl in Hgt |- *.
    apply orb_false_iff in Hgt as [Hc Hgt]. rewrite Hc.
    rewrite IH; [| done |]; by rewrite append_snoc.
Qed.

(** Outside a bracket, text without [<] yields nothing. *)
Lemma findall_refs_skip s rest :
  occurs "<" s = false ->
  findall_refs_from None (s +:+ rest) = findall_refs_from None rest.
Proof.
  induction s as [|c s IH]; [done |]. rewrite append_cons. simpl.
  intros H. apply orb_false_iff in H as [Hc Hs]. rewrite Hc. by apply IH.
Qed.

(** Every token [findall_refs] returns is non-empty and free of [>]. *)
Lemma findall_refs_from_tokens cur s :
  (forall acc, cur = Some acc -> occurs ">" acc = false) ->
  Forall (fun t => t <> "" /\ occurs ">" t = false) (findall_refs_from cur s).
Proof.
  revert cur. induction s as [|c s IH]; intros cur Hcur; simpl; [constructor |].
  destruct cur as [acc|].
  - destruct (Ascii.eqb c ">") eqn:Hc.
    + apply Forall_app. split; [|by apply IH].
      destruct acc as [|a acc']; simpl; [constructor |].
      constructor; [|constructor]. split; [done | by apply Hcur].
    + apply IH. intros acc' [= <-].
      rewrite occurs_app, (Hcur acc eq_refl). simpl. by rewrite Hc.
  - destruct (Ascii.eqb c "<"); apply IH; [by intros acc [= <-] | done].
Qed.
End references.

(** X1.  The tokens [findall_refs] reads are never empty and never hold
    a closing bracket; and a header that lists bare ids in angle brackets,
    whatever bracket-free text separates them, reads back as those ids, in
    order. *)
Theorem findall_refs_round_trip (sep : string) (ids : list string) (line : string) :
  References.occurs "<" sep = false ->
  Forall References.bare_id ids ->
  Emailer.findall_refs (References.render sep ids) = ids
  /\ Forall (fun t => t <> "" /\ References.occurs ">" t = false)
       (Emailer.findall_refs line).
Proof.
  intros Hsep Hids. split.
  - unfold Emailer.findall_refs.
    induction Hids as [|t ids (Hne & Hlt & Hgt) _ IH]; [done |].
    simpl References.render.
    rewrite (append_cons "<" ""), append_nil_l.
    rewrite (append_cons ">" ""), append_nil_l. simpl.
    rewrite (findall_refs_close "" t); [| done | by destruct t].
    rewrite append_nil_l. f_equal. by rewrite findall_refs_skip.
  - apply findall_refs_from_tokens. by intros acc [=].
Qed.

Lemma findall_refs_round_trip_witness :
  Emailer.findall_refs
    (References.render " " ["m1@x.com"; "m2@x.com"])
  = ["m1@x.com"; "m2@x.com"].
Proof.
  refine (proj1 (findall_refs_round_trip " " ["m1@x.com"; "m2@x.com"] ""
                   eq_refl _)).
  repeat (apply Forall_cons_2;
          [split; [discriminate | split; reflexivity] |]).
  apply Forall_nil_2.
Defined.

Section dedup.
Import Emailer.

Lemma parse_email_id env email_id e :
  _parse_email env email_id = Ok (Some e) -> id e = email_id.
Proof.
  unfold _parse_email. destruct (fetch_body env email_id) as [[raw|]|]; simpl;
    [|done..].
  by intros [= <-].
Qed.

Lemma add_refs_ids env ref_ids thread thread' :
  add_refs env ref_ids thread = Ok thread' ->
  NoDup (map id thread) ->
  NoDup (map id thread') /\ thread `prefix_of` thread'.
Proof.
  revert thread. induction ref_ids as [|ref_id rest IH]; intros thread; simpl.
  - intros [= <-] Hnd. by split.
  - destruct (_parse_email env ref_id) as [[e|]|]; simpl; [| |done].
    + case_bool_decide as Hin; [by apply IH |].
      intros Hrest Hnd. destruct (IH _ Hrest) as [Hnd' Hpre].
      * rewrite map_app. simpl. apply NoDup_app. split; [done |].
        split; [|apply NoDup_singleton].
        intros x Hx Hx'. apply list_elem_of_singleton in Hx' as ->. done.
      * split; [done |]. etrans; [|exact Hpre]. by apply prefix_app_r.
    + by apply IH.
Qed.

Lemma follow_refs_ids env refs thread thread' :
  follow_refs env refs thread = Ok thread' ->
  NoDup (map id thread) ->
  NoDup (map id thread') /\ thread `prefix_of` thread'.
Proof.
  revert thread. induction refs as [|ref rest IH]; intros thread; simpl.
  - intros [= <-] Hnd. by split.
  - destruct (search_message_id env ref) as [ref_ids|]; simpl; [|done].
    destruct (add_refs env ref_ids thread) as [thread1|] eqn:Hadd; simpl; [|done].
    intros Hrest Hnd. destruct (add_refs_ids _ _ _ _ Hadd Hnd) as [Hnd1 Hpre1].
    destruct (IH _ Hrest Hnd1) as [Hnd' Hpre']. split; [done |]. by etrans.
Qed.
End dedup.

(** X2.  A thread the REFERENCES fallback returns holds the seed message
    and no two messages with the same id, however often the header or the
    searches name a message; and it is ascending by date. *)
Theorem references_thread_no_duplicates
    (env : Emailer.mail_env) (email : Email) (thread : list Email) :
  Emailer.references_thread env email = Ok thread ->
  NoDup (map id thread) /\ email ∈ thread /\ StronglySorted date_le thread.
Proof.
  unfold Emailer.references_thread.
  destruct (Emailer.fetch_references env (id email)) as [[ref_line|]|]; simpl;
    [| |done].
  - destruct (Emailer.follow_refs env (Emailer.findall_refs ref_line) [email])
      as [found|] eqn:Hfollow; simpl; [|done].
    intros Hsort.
    destruct (follow_refs_ids _ _ _ _ Hfollow) as [Hnd [more ->]].
    { simpl. apply NoDup_singleton. }
    pose proof (sort_by_date_perm _ _ Hsort) as Hperm.
    split; [|split].
    + assert (map id thread ≡ₚ map id ([email] ++ more)) as ->
        by by apply Permutation_map.
      exact Hnd.
    + rewrite Hperm. set_solver.
    + by eapply sort_by_date_sorted.
  - intros [= <-]. split; [apply NoDup_singleton |].
    split; [set_solver | repeat constructor].
Qed.

Lemma references_thread_no_duplicates_witness :
  Emailer.references_thread Plain.mailbox Plain.second
  = Ok [Plain.first; Plain.second]
  /\ NoDup (map id [Plain.first; Plain.second]).
Proof.
  split; [reflexivity |].
  exact (proj1 (references_thread_no_duplicates Plain.mailbox Plain.second
                  [Plain.first; Plain.second] eq_refl)).
Defined.

(** ** More on the retry loop *)

Section retry_more.
Import Emailer Delivery.

(** The loop sets [success] exactly when it reaches an attempt that goes
    through, all attempts before it having failed. *)
Lemma retry_loop_success smtp todo st :
  success st = false ->
  success (fst (retry_loop smtp todo st)) = true
  <-> exists before attempt after,
        todo = (before ++ attempt :: after)%list
        /\ Forall (fun i => fails (smtp i) = true) before
        /\ try_body (smtp attempt) = Ok ().
Proof.
  revert st. induction todo as [|a rest IH]; intros st Hst.
  - simpl. rewrite Hst. split; [done |].
    intros (before & attempt & after & Heq & _). by destruct before.
  - destruct (try_body (smtp a)) as [[]|e] eqn:Hbody.
    + rewrite (retry_loop_succeeds _ _ _ _ Hbody). simpl. split; [|done].
      intros _. exists [], a, rest. by repeat split.
    + destruct (fails (smtp a)) eqn:Hfails.
      * destruct (retry_loop_fails smtp a rest st Hfails)
          as (st' & -> & _ & Hsucc). rewrite IH by congruence. split.
        -- intros (before & attempt & after & -> & Hbefore & Hok).
           exists (a :: before), attempt, after. repeat split; [|done].
           by constructor.
        -- intros (before & attempt & after & Heq & Hbefore & Hok).
           destruct before as [|b before]; simpl in Heq.
           ++ injection Heq as <- _. congruence.
           ++ injection Heq as <- ->. apply Forall_cons in Hbefore as [_ ?].
              by exists before, attempt, after.
      * split.
        -- intros Hsucc. exfalso. revert Hsucc. simpl. rewrite Hbody.
           unfold fails in Hfails. rewrite Hbody in Hfails.
           destruct e; simpl in Hfails |- *; try done; try (by rewrite Hst).
           ++ destruct (handler_reconnect_r (smtp a));
                [done | simpl; by rewrite Hst].
           ++ destruct (smtp_code =? 451); [|done].
              destruct (handler_reconnect_r (smtp a));
                [done | simpl; by rewrite Hst].
        -- intros (before & attempt & after & Heq & Hbefore & Hok).
           destruct before as [|b before]; simpl in Heq.
           ++ injection Heq as <- _. congruence.
           ++ injection Heq as <- _. apply Forall_cons in Hbefore as [? _].
              congruence.
Qed.
End retry_more.

(** [success] among the attempts 1, 2, 3. *)
Lemma send_with_retry_success_iff (smtp : nat -> Emailer.smtp_attempt) :
  Emailer.success (fst (Emailer.send_with_retry smtp)) = true
  <-> exists n, (1 <= n <= 3)%nat
                /\ Emailer.try_body (smtp n) = Ok ()
                /\ forall i, (1 <= i < n)%nat -> Delivery.fails (smtp i) = true.
Proof.
  unfold Emailer.send_with_retry. rewrite retry_loop_success by done.
  simpl seq. split.
  - intros (before & attempt & after & Heq & Hbefore & Hok).
    destruct before as [|b1 [|b2 [|b3 before]]]; simpl in Heq; simplify_eq.
    + exists 1%nat. repeat split; [lia.. | done | lia].
    + apply Forall_cons in Hbefore as [H1 _].
      exists 2%nat. repeat split; [lia.. | done |].
      intros i Hi. by replace i with 1%nat by lia.
    + apply Forall_cons in Hbefore as [H1 Hbefore].
      apply Forall_cons in Hbefore as [H2 _].
      exists 3%nat. repeat split; [lia.. | done |].
      intros i Hi. destruct (decide (i = 1%nat)) as [->|]; [done |].
      by replace i with 2%nat by lia.
    + by destruct before.
  - intros (n & Hn & Hok & Hfails).
    destruct (decide (n = 1%nat)) as [->|];
      [|destruct (decide (n = 2%nat)) as [->|]].
    + exists [], 1%nat, [2; 3]%nat. by repeat split.
    + exists [1%nat], 2%nat, [3%nat]. repeat split; [|done].
      constructor; [apply Hfails; lia | constructor].
    + replace n with 3%nat in * by lia.
      exists [1; 2]%nat, 3%nat, []. repeat split; [|done].
      repeat constructor; apply Hfails; lia.
Qed.

(** X3.  A delivery ends with [success] exactly when one of the three
    attempts goes through and every attempt before it failed with its
    except clause run to the end; an exception that leaves the loop, or
    three failures, end it without. *)
Theorem send_with_retry_success (smtp : nat -> Emailer.smtp_attempt) :
  Emailer.success (fst (Emailer.send_with_retry smtp)) = true
  <-> exists n, (1 <= n <= 3)%nat
                /\ Emailer.try_body (smtp n) = Ok ()
                /\ forall i, (1 <= i < n)%nat -> Delivery.fails (smtp i) = true.
Proof. apply send_with_retry_success_iff. Qed.

Section sleep_bound.
Import Emailer Delivery.

(** Each pass records one attempt and at most one caught failure. *)
Lemma retry_loop_failures smtp todo st :
  (length (failures st) <= length (attempts st))%nat ->
  (length (failures (fst (retry_loop smtp todo st)))
   <= length (attempts (fst (retry_loop smtp todo st))))%nat.
Proof.
  revert st. induction todo as [|a rest IH]; intros st Hst; [done |].
  assert (forall e, (length (failures (caught e (begin_attempt a st)))
                     <= length (attempts (caught e (begin_attempt a st))))%nat)
    as Hcaught by (intros e; simpl; rewrite !length_app; simpl; lia).
  assert ((length (failures (begin_attempt a st))
           <= length (attempts (begin_attempt a st)))%nat) as Hbegin
    by (simpl; rewrite length_app; simpl; lia).
  simpl. destruct (try_body (smtp a)) as [[]|e]; [exact Hbegin |].
  destruct e; simpl; try (apply IH; apply Hcaught); try exact Hbegin.
  - destruct (handler_reconnect_r (smtp a)); [apply IH |]; apply Hcaught.
  - destruct (smtp_code =? 451); [|apply IH; apply Hcaught].
    destruct (handler_reconnect_r (smtp a)); [apply IH |]; apply Hcaught.
Qed.
End sleep_bound.

(** X4.  Whatever the SMTP side does, one delivery sleeps at most three
    times, and never more than 14 time units in all. *)
Theorem send_with_retry_sleeps_at_most (smtp : nat -> Emailer.smtp_attempt) :
  (length (Emailer.sleeps (fst (Emailer.send_with_retry smtp))) <= 3)%nat
  /\ foldr Z.add 0 (Emailer.sleeps (fst (Emailer.send_with_retry smtp))) <= 14.
Proof.
  pose proof (send_with_retry_sleeps smtp) as Hsleeps.
  pose proof (send_with_retry_bound smtp) as Hattempts.
  pose proof (retry_loop_failures smtp (seq 1 Emailer.max_retries)
                {| Emailer.retry_delay := 2; Emailer.success := false;
                   Emailer.attempts := []; Emailer.failures := [];
                   Emailer.sleeps := []; Emailer.reconnects := [] |}
                (le_n 0)) as Hfailures.
  fold (Emailer.send_with_retry smtp) in Hfailures.
  pose proof (List.filter_length_le Delivery.backs_off
                (Emailer.failures (fst (Emailer.send_with_retry smtp)))) as Hle.
  unfold Emailer.max_retries in Hattempts.
  set (k := length (List.filter Delivery.backs_off _)) in *.
  rewrite Hsleeps.
  assert (k <= 3)%nat as Hk by lia.
  destruct k as [|[|[|[|k]]]]; [| | | |lia]; split; simpl; lia.
Qed.

(** X5.  A pass of [process] marks a message read only when one of the
    three send attempts went through: then it is the most recent message
    of the thread that is marked, [mark_read] was set and the pass ends as
    [Sent]. *)
Theorem process_message_marks_read_after_send
    (env : Emailer.message_env) (mark_read : bool) (email_thread : list Email) :
  Emailer.marked_read (Emailer.process_message env mark_read email_thread) <> [] ->
  mark_read = true
  /\ Emailer.ended (Emailer.process_message env mark_read email_thread)
     = Ok Emailer.Sent
  /\ (exists most_recent,
        last email_thread = Some most_recent
        /\ Emailer.marked_read
             (Emailer.process_message env mark_read email_thread)
           = [id most_recent])
  /\ (exists n, (1 <= n <= 3)%nat
                /\ Emailer.try_body (Emailer.smtp env n) = Ok ()).
Proof.
  unfold Emailer.process_message, py_last.
  destruct (last email_thread) as [most_recent|]; [|done].
  destruct (Emailer.respond_r env) as [[response|]|]; [|done..].
  destruct (Emailer.send_with_retry (Emailer.smtp env)) as [st [e|]] eqn:Hrun;
    [done |].
  destruct (Emailer.success st) eqn:Hsucc; simpl; [|done].
  destruct mark_read; [|done].
  destruct (Emailer.mark_as_read_r env) as [[]|e]; simpl; [|done].
  intros _. split; [done |]. split; [done |]. split; [by eexists |].
  assert (Emailer.success (fst (Emailer.send_with_retry (Emailer.smtp env)))
          = true) as Htrue by by rewrite Hrun.
  apply send_with_retry_success_iff in Htrue as (n & Hn & Hok & _). eauto.
Qed.

Lemma process_message_marks_read_after_send_witness :
  Emailer.ended
    (Emailer.process_message (Delivery.replying [SMTPServerDisconnected]) true
       [Delivery.unread]) = Ok Emailer.Sent.
Proof.
  exact (proj1 (proj2 (process_message_marks_read_after_send
    (Delivery.replying [SMTPServerDisconnected]) true [Delivery.unread]
    ltac:(discriminate)))).
Defined.

(** ** More on the approval rendezvous *)

Section decisions.
Import TelegramBot Approval.

Lemma fault_pending q e b : pending_actions (fault q e b) = pending_actions b.
Proof.
  unfold fault. by destruct (is_Exception e); [destruct (error_edit_r q) |].
Qed.

(** The only decisions a callback writes: the entry's own draft on
    "send", nothing on "draft". *)
Lemma callback_writes q b :
  pending_actions (_button_callback q b) = pending_actions b
  \/ exists pa,
       pending_actions b !! cb_email_id q = Some pa
       /\ ((cb_action q = "send"
            /\ pending_actions (_button_callback q b)
               = <[cb_email_id q := decided pa (Some (draft_email pa))]>
                   (pending_actions b))
           \/ (cb_action q = "draft"
               /\ pending_actions (_button_callback q b)
                  = <[cb_email_id q := decided pa None]> (pending_actions b))).
Proof.
  unfold _button_callback, callback_lookup.
  destruct (answer_r q) as [[]|e0]; [|by left].
  destruct (String.eqb (cb_action q) "test").
  { destruct (edit_r q); [by left | left; apply fault_pending]. }
  destruct (pending_actions b !! cb_email_id q) as [pa|] eqn:Hpa.
  2:{ destruct (edit_r q); [by left | left; apply fault_pending]. }
  destruct (py_last (email_thread pa)); [|left; apply fault_pending].
  destruct (String.eqb (cb_action q) "send") eqn:Hsend.
  { apply String.eqb_eq in Hsend. unfold callback_commit.
    destruct (edit_r q) as [[]|e1]; [|left; apply fault_pending].
    unfold write_decision. simpl. rewrite Hpa. simpl.
    right. exists pa. split; [done |]. by left. }
  destruct (String.eqb (cb_action q) "draft") eqn:Hdraft; [|by left].
  apply String.eqb_eq in Hdraft. unfold callback_commit.
  destruct (edit_r q) as [[]|e1]; [|left; apply fault_pending].
  unfold write_decision. simpl. rewrite Hpa. simpl.
  right. exists pa. split; [done |]. by right.
Qed.
End decisions.

Section decisions_run.
Import TelegramBot Approval Decisions.

Lemma callback_decision q b k pa :
  pending_actions b !! k = Some pa ->
  exists d,
    pending_actions (_button_callback q b) !! k = Some (decided pa d)
    /\ written_by (draft_email pa) k [q] (pa_result pa) d.
Proof.
  intros Hpa.
  destruct (callback_writes q b) as [-> | (pa' & Hpa' & Hw)].
  { exists (pa_result pa). rewrite decided_same. split; [done | by left]. }
  destruct (decide (cb_email_id q = k)) as [Hk|Hk].
  - rewrite Hk in Hpa'. assert (pa' = pa) as -> by congruence.
    destruct Hw as [[Hsend ->] | [Hdraft ->]].
    + exists (Some (draft_email pa)). rewrite Hk, lookup_insert_eq.
      split; [done |]. right; right. split; [done |]. exists q. set_solver.
    + exists None. rewrite Hk, lookup_insert_eq.
      split; [done |]. right; by left.
  - exists (pa_result pa). rewrite decided_same. split; [|by left].
    destruct Hw as [[_ ->] | [_ ->]]; by rewrite lookup_insert_ne.
Qed.

Lemma run_callbacks_decision qs b k pa :
  pending_actions b !! k = Some pa ->
  exists d,
    pending_actions (run_callbacks qs b) !! k = Some (decided pa d)
    /\ written_by (draft_email pa) k qs (pa_result pa) d.
Proof.
  revert b pa. induction qs as [|q qs IH]; intros b pa Hpa.
  - exists (pa_result pa). rewrite decided_same. split; [done | by left].
  - destruct (callback_decision q b k pa Hpa) as (d0 & Hd0 & Hw0).
    destruct (IH _ _ Hd0) as (d & Hd & Hw). simpl in Hw.
    exists d. split; [exact Hd |].
    destruct Hw as [-> | [-> | [-> (q' & Hq' & Hk' & Hs')]]].
    + destruct Hw0 as [-> | [-> | [-> (q0 & Hq0 & Hk0 & Hs0)]]].
      * by left.
      * right; by left.
      * right; right. split; [done |]. exists q0.
        split; [|done]. apply list_elem_of_singleton in Hq0 as ->.
        apply elem_of_cons. by left.
    + right; by left.
    + right; right. split; [done |]. exists q'.
      split; [|done]. apply elem_of_cons. by right.
Qed.
End decisions_run.

Section approval_result.

(** What [notify_and_wait_for_action] can return, and what it leaves. *)
Lemma notify_and_wait_result
    (env : TelegramBot.approval_env) (email_thread : list Email)
    (draft_email : Email) (b : TelegramBot.bot) (r : option Email) :
  snd (TelegramBot.notify_and_wait_for_action env email_thread draft_email b)
  = Ok r ->
  (r = None
   \/ (r = Some draft_email
       /\ exists q most_recent,
            q ∈ TelegramBot.during_wait env
            /\ last email_thread = Some most_recent
            /\ TelegramBot.cb_email_id q
               = TelegramBot.unique_id_of env most_recent
            /\ TelegramBot.cb_action q = "send"))
  /\ (forall most_recent,
        last email_thread = Some most_recent ->
        TelegramBot.pending_actions
          (fst (TelegramBot.notify_and_wait_for_action env email_thread
                  draft_email b))
          !! TelegramBot.unique_id_of env most_recent = None).
Proof.
  unfold TelegramBot.notify_and_wait_for_action.
  destruct (last email_thread) as [most_recent|]; simpl;
    [|intros [= <-]; split; [by left | done]].
  set (uid := TelegramBot.unique_id_of env most_recent).
  destruct (TelegramBot.notify env uid b) as [b1 [sent_message|e]]; [|done].
  unfold TelegramBot.register, TelegramBot.wait_for_action.
  set (pa0 := {| TelegramBot.email_thread := email_thread;
                 TelegramBot.draft_email := draft_email;
                 TelegramBot.event := length (TelegramBot.events b1);
                 TelegramBot.pa_result := None |}).
  set (b2 := TelegramBot.log (TelegramBot.Registered uid) _).
  assert (TelegramBot.pending_actions b2 !! uid = Some pa0) as Hpa0
    by (simpl; apply lookup_insert_eq).
  destruct (run_until_set_split (length (TelegramBot.events b1))
              (TelegramBot.during_wait env) b2) as (pre & Hpre & Hfst & _).
  destruct (TelegramBot.run_until_set (length (TelegramBot.events b1))
              (TelegramBot.during_wait env) b2) as [b3' late].
  simpl in Hpre, Hfst. subst b3'.
  destruct (run_callbacks_decision pre b2 uid pa0 Hpa0) as (d & Hd & Hw).
  set (b3 := TelegramBot.run_callbacks pre b2) in *.
  destruct (TelegramBot.is_set _ b3).
  - simpl. unfold TelegramBot.deregister. simpl. rewrite Hd. simpl.
    intros [= <-]. split.
    + destruct Hw as [-> | [-> | [-> (q & Hq & Hk & Hs)]]];
        [by left | by left |].
      right. split; [done |]. exists q, most_recent.
      split; [rewrite Hpre; set_solver | done].
    + intros m [= <-]. apply run_callbacks_absent. simpl.
      apply lookup_delete_eq.
  - destruct (TelegramBot.withdraw_r env) as [[]|e]; [|done].
    set (b4 := TelegramBot.log (TelegramBot.Withdrawn uid) _).
    destruct (run_callbacks_entry (TelegramBot.during_withdraw env) b4 uid
                (Approval.decided pa0 d) Hd) as [d' Hd'].
    unfold TelegramBot.deregister. rewrite Hd'. simpl.
    intros [= <-]. split; [by left |].
    intros m [= <-]. apply lookup_delete_eq.
Qed.
End approval_result.

(** X6.  When [notify_and_wait_for_action] returns, it returns [None] or
    the very draft it was given, the draft only if a "send" press for the
    key of the thread was handled during the wait; and no entry is left
    under that key. *)
Theorem notify_and_wait_returns
    (env : TelegramBot.approval_env) (email_thread : list Email)
    (draft_email : Email) (b : TelegramBot.bot) (r : option Email) :
  snd (TelegramBot.notify_and_wait_for_action env email_thread draft_email b)
  = Ok r ->
  (r = None
   \/ (r = Some draft_email
       /\ exists q most_recent,
            q ∈ TelegramBot.during_wait env
            /\ last email_thread = Some most_recent
            /\ TelegramBot.cb_email_id q
               = TelegramBot.unique_id_of env most_recent
            /\ TelegramBot.cb_action q = "send"))
  /\ (forall most_recent,
        last email_thread = Some most_recent ->
        TelegramBot.pending_actions
          (fst (TelegramBot.notify_and_wait_for_action env email_thread
                  draft_email b))
          !! TelegramBot.unique_id_of env most_recent = None).
Proof. apply notify_and_wait_result. Qed.

Lemma notify_and_wait_returns_witness :
  exists q most_recent,
    q ∈ [Approval.press "send" "2"]
    /\ last [Approval.question] = Some most_recent
    /\ TelegramBot.cb_email_id q = "2"
    /\ TelegramBot.cb_action q = "send".
Proof.
  destruct (proj1 (notify_and_wait_returns
    (Approval.channel [] [Approval.press "send" "2"] (Ok ()))
    [Approval.question] Approval.draft Approval.fresh (Some Approval.draft)
    eq_refl)) as [Hnone | [_ (q & m & Hq & Hlast & Hk & Hs)]].
  - discriminate Hnone.
  - exists q, m. repeat split; [exact Hq | exact Hlast | | exact Hs].
    injection Hlast as <-. exact Hk.
Defined.

(** ** [unsure] *)

Section unsure.
Import Main Phrases Text.

Lemma prefix_app p s :
  String.prefix p s = true <-> exists post, s = p +:+ post.
Proof.
  revert s. induction p as [|c p IH]; intros s.
  - split; [| by destruct s]. intros _. by exists s.
  - destruct s as [|c' s]; simpl; [split; [done | by intros [post [=]]] |].
    destruct (ascii_dec c c') as [->|Hne].
    + rewrite IH. split; intros [post Hpost]; exists post.
      * rewrite append_cons. by f_equal.
      * rewrite append_cons in Hpost. by injection Hpost.
    + split; [done |]. intros [post Hpost].
      rewrite append_cons in Hpost. by injection Hpost as -> _.
Qed.

Lemma contains_app needle s :
  contains needle s = true <-> exists pre post, s = pre +:+ needle +:+ post.
Proof.
  assert (forall t, contains needle t
                    = String.prefix needle t
                      || match t with
                         | EmptyString => false
                         | String _ t' => contains needle t'
                         end) as Hunfold by (by intros [|? ?]).
  induction s as [|c s IH]; rewrite Hunfold, orb_true_iff, prefix_app.
  - split.
    + intros [[post Hpost] | [=]]. by exists "", post.
    + intros (pre & post & Heq). left.
      destruct pre as [|c pre]; [by exists post | by rewrite append_cons in Heq].
  - rewrite IH. split.
    + intros [[post Hpost] | (pre & post & ->)]; [by exists "", post |].
      by exists (String c pre), post.
    + intros (pre & post & Heq). destruct pre as [|c' pre].
      * left. by exists post.
      * right. rewrite append_cons in Heq. injection Heq as _ ->.
        by exists pre, post.
Qed.

Lemma ascii_lower_app a b :
  ascii_lower (a +:+ b) = ascii_lower a +:+ ascii_lower b.
Proof.
  induction a as [|c a IH]; [done |].
  rewrite append_cons. simpl. rewrite append_cons. by f_equal.
Qed.

(** A split of the lowered text comes from a split of the text. *)
Lemma ascii_lower_split t a b :
  ascii_lower t = a +:+ b ->
  exists t1 t2, t = t1 +:+ t2 /\ ascii_lower t1 = a /\ ascii_lower t2 = b.
Proof.
  revert t. induction a as [|c a IH]; intros t Ht.
  - by exists "", t.
  - destruct t as [|c' t]; [done |]. rewrite append_cons in Ht.
    simpl in Ht. injection Ht as Hc Ht.
    destruct (IH t Ht) as (t1 & t2 & -> & <- & <-).
    exists (String c' t1), t2. by rewrite <-Hc.
Qed.

Lemma unsure_phrases s :
  unsure s = true
  <-> exists p pre post, p ∈ phrases /\ s = pre +:+ p +:+ post.
Proof.
  unfold unsure, phrases. rewrite !orb_true_iff, !contains_app. split.
  - intros [[[[H|H]|H]|H]|H]; destruct H as (pre & post & ->);
      eexists _, pre, post; (split; [|reflexivity]); set_solver.
  - intros (p & pre & post & Hp & ->).
    rewrite !elem_of_cons, elem_of_nil in Hp.
    destruct Hp as [->|[->|[->|[->|[->|[]]]]]].
    + do 4 left. by exists pre, post.
    + do 3 left. right. by exists pre, post.
    + do 2 left. right. by exists pre, post.
    + left. right. by exists pre, post.
    + right. by exists pre, post.
Qed.
End unsure.

(** X7.  An answer of the agent that is ASCII text, which [str.lower]
    lowers letter by letter, counts as unsure exactly when it holds, in any
    mix of upper and lower case, one of the five phrases as a substring. *)
Theorem unsure_is_caseless_substring
    (env : Main.respond_env) (body_md : string) :
  (forall s, Text.is_ascii s = true -> Main.lower env s = Text.ascii_lower s) ->
  Text.is_ascii body_md = true ->
  Main.unsure (Main.lower env body_md) = true
  <-> exists pre x post,
        body_md = pre +:+ x +:+ post
        /\ Text.ascii_lower x ∈ Phrases.phrases.
Proof.
  intros Hlower Hascii. rewrite (Hlower _ Hascii), unsure_phrases. split.
  - intros (p & pre' & post' & Hp & Heq).
    apply ascii_lower_split in Heq as (pre & rest & -> & <- & Hrest).
    apply ascii_lower_split in Hrest as (x & post & -> & <- & <-).
    by exists pre, x, post.
  - intros (pre & x & post & -> & Hx).
    exists (Text.ascii_lower x), (Text.ascii_lower pre), (Text.ascii_lower post).
    split; [done |]. by rewrite !ascii_lower_app.
Qed.

Lemma unsure_is_caseless_substring_witness :
  Main.unsure (Main.lower Polls.answering "Sorry, I Do Not KNOW that.") = true.
Proof.
  apply (unsure_is_caseless_substring Polls.answering
           "Sorry, I Do Not KNOW that." (fun s _ => eq_refl) eq_refl).
  exists "Sorry, I ", "Do Not KNOW", " that.". split; [reflexivity |].
  vm_compute. set_solver.
Defined.

(** ** What [handle_thread] leaves behind *)

Section accounting.
Import Main Handling.

(** [save_draft] touches the drafts and the IMAP connection only; it
    appends at most the draft it was given, and lets no [Exception] out. *)
Lemma save_draft_frame env draft_email w :
  let w' := fst (save_draft env draft_email w) in
  outbox w' = outbox w /\ seen w' = seen w
  /\ active_tasks w' = active_tasks w /\ bot w' = bot w
  /\ (drafts w' = drafts w
      \/ exists drafts_folder,
           drafts w' = (drafts w ++ [(drafts_folder, draft_email)])%list
           /\ snd (save_draft env draft_email w) = Ok ())
  /\ forall e, snd (save_draft env draft_email w) = Raise e ->
               is_Exception e = false /\ drafts w' = drafts w.
Proof.
  unfold save_draft, save_draft_try.
  destruct (Emailer._ensure_imap_connection (draft_imap env) (imap w))
    as [st [imap_conn|e]].
  2:{ destruct (is_Exception e) eqn:He; simpl; split_and!; try done;
        try (by left); intros e' [= <-]; by split. }
  destruct (select_drafts_folder env imap_conn st) as [st1 [drafts_folder|e]].
  2:{ destruct (is_Exception e) eqn:He; simpl; split_and!; try done;
        try (by left); intros e' [= <-]; by split. }
  destruct (append_r env) as [[]|e]; simpl.
  - split_and!; try done. right. by exists drafts_folder.
  - split_and!; try done. by left.
  - destruct (is_Exception e) eqn:He; simpl; split_and!; try done;
      try (by left); intros e' [= <-]; by split.
Qed.

(** [respond] touches neither the outbox nor the read marks nor the task
    table; it saves at most one draft, the one it built, and then returns
    the marker; and what it returns otherwise is the draft it built, let
    through by the channel when one is configured, with the IMAP
    connection as it was. *)
Lemma respond_frame env thread w :
  let w' := fst (respond env thread w) in
  outbox w' = outbox w /\ seen w' = seen w
  /\ active_tasks w' = active_tasks w
  /\ match snd (respond env thread w) with
     | Ok (Some response) =>
         exists most_recent body_md,
           last thread = Some most_recent
           /\ agent_r env = Ok body_md
           /\ unsure (lower env body_md) = false
           /\ ((response = draft_marker env
                /\ telegram_bot env <> None
                /\ (drafts w' = drafts w
                    \/ exists drafts_folder,
                         drafts w'
                         = (drafts w
                            ++ [(drafts_folder,
                                 draft_reply env most_recent body_md)])%list))
               \/ (response = draft_reply env most_recent body_md
                   /\ drafts w' = drafts w
                   /\ imap w' = imap w
                   /\ forall channel,
                        telegram_bot env = Some channel ->
                        let_through channel thread most_recent
                          (draft_reply env most_recent body_md) (bot w)))
     | _ => drafts w' = drafts w
     end.
Proof.
  unfold respond, py_last.
  destruct (last thread) as [most_recent|] eqn:Hlast; [|done].
  destruct (agent_r env) as [body_md|e] eqn:Hagent; [|done].
  destruct (unsure (lower env body_md)) eqn:Hsure; [done |].
  destruct (telegram_bot env) as [channel|] eqn:Hbot.
  2:{ simpl. repeat split. exists most_recent, body_md.
      repeat split; try done. right. by repeat split. }
  pose proof (notify_and_wait_result channel thread
                (draft_reply env most_recent body_md) (bot w)) as Hres.
  destruct (TelegramBot.notify_and_wait_for_action channel thread
              (draft_reply env most_recent body_md) (bot w))
    as [b [[result|]|e]] eqn:Hnotify; simpl in Hres |- *.
  - repeat split. exists most_recent, body_md. repeat split; try done.
    destruct (Hres _ eq_refl) as [[Hr | [Hr (q & m & Hq & Hm & Hk & Hs)]] _];
      [done |].
    injection Hr as ->. right. repeat split.
    intros ? [= <-]. left. exists q. repeat split; try done. congruence.
  - pose proof (save_draft_frame env (draft_reply env most_recent body_md)
                  (with_bot b w)) as Hsave.
    destruct (save_draft env (draft_reply env most_recent body_md)
                (with_bot b w)) as [w1 [[]|e]]; simpl in Hsave |- *;
      destruct Hsave as (Hout & Hseen & Htasks & _ & Hdrafts & Hraise).
    + repeat split; try done. exists most_recent, body_md.
      repeat split; try done. left. repeat split; try done.
      destruct Hdrafts as [-> | (drafts_folder & -> & _)];
        [by left | right; by exists drafts_folder].
    + destruct (Hraise e eq_refl) as [-> Hsame]. simpl. by repeat split.
  - destruct (is_Exception e) eqn:He; simpl; [|done]. repeat split.
    exists most_recent, body_md. repeat split; try done. right. repeat split.
    intros ? [= <-]. right. exists e. by rewrite Hnotify.
Qed.

Lemma handle_thread_frame env thread w :
  let w' := fst (handle_thread env thread w) in
  (outbox w' = outbox w /\ seen w' = seen w
   /\ (drafts w' = drafts w
       \/ exists most_recent body_md drafts_folder,
            last thread = Some most_recent
            /\ agent_r (responding env) = Ok body_md
            /\ telegram_bot (responding env) <> None
            /\ drafts w'
               = (drafts w
                  ++ [(drafts_folder,
                       draft_reply (responding env) most_recent
                         body_md)])%list))
  \/ (exists most_recent body_md,
        last thread = Some most_recent
        /\ agent_r (responding env) = Ok body_md
        /\ unsure (lower (responding env) body_md) = false
        /\ connect_r env = Ok () /\ send_message_r env = Ok ()
        /\ (forall channel,
              telegram_bot (responding env) = Some channel ->
              let_through channel thread most_recent
                (draft_reply (responding env) most_recent body_md) (bot w))
        /\ outbox w'
           = (outbox w ++ [draft_reply (responding env) most_recent body_md])%list
        /\ drafts w' = drafts w
        /\ seen w'
           = if closes env
             then (seen w
                   ++ [(Emailer.selected (imap w) !! imap_conn env,
                        id most_recent)])%list
             else seen w).
Proof.
  unfold handle_thread, py_last.
  destruct (last thread) as [most_recent|] eqn:Hlast;
    [|left; simpl; repeat split; by left].
  unfold handle_thread_try.
  pose proof (respond_frame (responding env) thread w) as Hframe.
  destruct (respond (responding env) thread w) as [w1 r]. simpl in Hframe.
  destruct Hframe as (Hout & Hseen & _ & Hr).
  destruct r as [[response|]|e].
  2:{ left. simpl. (split; [done |]; split; [done |]; by left). }
  2:{ left. destruct (is_Exception e); simpl;
        (split; [done |]; split; [done |]; by left). }
  destruct Hr as (m & body_md & Hm & Hagent & Hsure & Hr).
  assert (m = most_recent) as -> by congruence.
  destruct Hr as [(-> & Hbot & Hdrafts) | (-> & Hdrafts & Himap & Hgate)].
  { left. simpl. rewrite Hout, Hseen. repeat split.
    destruct Hdrafts as [-> | (drafts_folder & ->)]; [by left |].
    right. by exists most_recent, body_md, drafts_folder. }
  simpl.
  destruct (connect_r env) as [[]|e1] eqn:Hconnect.
  2:{ left. destruct (is_Exception e1); simpl;
        (split; [done |]; split; [done |]; by left). }
  destruct (send_message_r env) as [[]|e2] eqn:Hsend.
  2:{ left. destruct (is_Exception e2); simpl;
        (split; [done |]; split; [done |]; by left). }
  right. exists most_recent, body_md. unfold closes.
  destruct (quit_r env) as [[]|e3].
  2:{ destruct (is_Exception e3); simpl; rewrite Hout, Hseen, Hdrafts;
        by repeat split. }
  destruct (store_r env) as [[]|e4].
  3:{ destruct (is_Exception e4); simpl; rewrite Hout, Hseen, Hdrafts;
        by repeat split. }
  - simpl. rewrite Hout, Hseen, Hdrafts, Himap. by repeat split.
  - simpl. rewrite Hout, Hseen, Hdrafts. by repeat split.
Qed.
End accounting.

(** X8.  One run of [handle_thread] either leaves the outbox and the read
    marks as they were, saving at most the one draft built from the
    agent's answer (and that only with a bot configured); or it sends
    exactly that draft and saves nothing, and then one STORE is answered
    OK exactly when the quit of the SMTP connection returns and the server
    accepts the STORE: it names the number of the last message of the
    thread and acts on the mailbox the connection of the task has selected
    at that moment, whichever that is.  No message is marked without its
    reply sent, and none is both answered and saved as a draft. *)
Theorem handle_thread_accounting
    (env : Main.task_env) (email_thread : list Email) (w : Main.world) :
  let w' := fst (Main.handle_thread env email_thread w) in
  (Main.outbox w' = Main.outbox w /\ Main.seen w' = Main.seen w
   /\ (Main.drafts w' = Main.drafts w
       \/ exists most_recent body_md drafts_folder,
            last email_thread = Some most_recent
            /\ Main.agent_r (Main.responding env) = Ok body_md
            /\ Main.telegram_bot (Main.responding env) <> None
            /\ Main.drafts w'
               = (Main.drafts w
                  ++ [(drafts_folder,
                       Main.draft_reply (Main.responding env) most_recent
                         body_md)])%list))
  \/ (exists most_recent body_md,
        last email_thread = Some most_recent
        /\ Main.agent_r (Main.responding env) = Ok body_md
        /\ Main.outbox w'
           = (Main.outbox w
              ++ [Main.draft_reply (Main.responding env) most_recent
                    body_md])%list
        /\ Main.drafts w' = Main.drafts w
        /\ Main.seen w'
           = if Handling.closes env
             then (Main.seen w
                   ++ [(Emailer.selected (Main.imap w) !! Main.imap_conn env,
                        id most_recent)])%list
             else Main.seen w).
Proof.
  destruct (handle_thread_frame env email_thread w)
    as [H | (m & body_md & Hm & Hagent & _ & _ & _ & _ & Hout & Hdrafts & Hseen)];
    [by left | right].
  by exists m, body_md.
Qed.

(** X9.  With a bot configured, [handle_thread] puts a reply in the outbox
    only if the agent's answer is not unsure and either a "send" press for
    the key of the thread was handled during the wait or the rendezvous
    raised an [Exception]. *)
Theorem reply_needs_approval_or_fault
    (env : Main.task_env) (email_thread : list Email) (w : Main.world)
    (channel : TelegramBot.approval_env) :
  Main.telegram_bot (Main.responding env) = Some channel ->
  Main.outbox (fst (Main.handle_thread env email_thread w)) <> Main.outbox w ->
  exists most_recent body_md,
    last email_thread = Some most_recent
    /\ Main.agent_r (Main.responding env) = Ok body_md
    /\ Main.unsure (Main.lower (Main.responding env) body_md) = false
    /\ Handling.let_through channel email_thread most_recent
         (Main.draft_reply (Main.responding env) most_recent body_md)
         (Main.bot w).
Proof.
  intros Hbot Hout.
  destruct (handle_thread_frame env email_thread w)
    as [(Hsame & _) | (m & body_md & Hm & Hagent & Hsure & _ & _ & Hgate & _)];
    [done |].
  exists m, body_md. repeat split; try done. by apply Hgate.
Qed.

Lemma reply_needs_approval_or_fault_witness :
  Main.outbox (fst (Main.handle_thread Approved.task [Polls.question] Polls.idle))
  <> Main.outbox Polls.idle
  /\ exists most_recent body_md,
       last [Polls.question] = Some most_recent
       /\ Main.agent_r (Main.responding Approved.task) = Ok body_md
       /\ Main.unsure (Main.lower (Main.responding Approved.task) body_md)
          = false
       /\ Handling.let_through Approved.channel [Polls.question] most_recent
            (Main.draft_reply (Main.responding Approved.task) most_recent body_md)
            (Main.bot Polls.idle).
Proof.
  assert (Main.outbox (fst (Main.handle_thread Approved.task [Polls.question]
                              Polls.idle))
          <> Main.outbox Polls.idle) as Hout by (vm_compute; discriminate).
  split; [exact Hout |].
  exact (reply_needs_approval_or_fault Approved.task [Polls.question] Polls.idle
           Approved.channel eq_refl Hout).
Defined.

(** ** The shared IMAP connection *)

Section connection.
Import Main.

Lemma new_imap_connection_state env st :
  match snd (Emailer.new_imap_connection env st) with
  | Ok c =>
      Emailer.imap_conn (fst (Emailer.new_imap_connection env st)) = Some c
      /\ Emailer.IMAP4_SSL_r env = Ok c
      /\ Emailer.login_r env = Ok ()
      /\ exists ok,
           Emailer.select_inbox_r env = Ok ok
           /\ Emailer.selected (fst (Emailer.new_imap_connection env st)) !! c
              = if ok then Some Emailer.INBOX else None
  | Raise e =>
      is_Exception e = true ->
      Emailer.imap_conn (fst (Emailer.new_imap_connection env st)) = None
  end.
Proof.
  unfold Emailer.new_imap_connection, Emailer.imap_failed.
  destruct (Emailer.IMAP4_SSL_r env) as [c|e]; simpl; [|by intros ->].
  destruct (Emailer.login_r env) as [[]|e]; simpl; [|by intros ->].
  destruct (Emailer.select_inbox_r env) as [ok|e]; simpl; [|by intros ->].
  split; [done |]. split; [done |]. split; [done |]. exists ok.
  split; [done |].
  destruct ok; [apply lookup_insert_eq | apply lookup_delete_eq].
Qed.

Lemma ensure_imap_connection_state env st :
  match snd (Emailer._ensure_imap_connection env st) with
  | Ok c =>
      Emailer.imap_conn (fst (Emailer._ensure_imap_connection env st)) = Some c
      /\ ((Emailer.imap_conn st = Some c
           /\ Emailer.imap_noop_r env = Ok true
           /\ fst (Emailer._ensure_imap_connection env st) = st)
          \/ (Emailer.IMAP4_SSL_r env = Ok c
              /\ Emailer.login_r env = Ok ()
              /\ exists ok,
                   Emailer.select_inbox_r env = Ok ok
                   /\ Emailer.selected
                        (fst (Emailer._ensure_imap_connection env st)) !! c
                      = if ok then Some Emailer.INBOX else None))
  | Raise e =>
      is_Exception e = true ->
      Emailer.imap_conn (fst (Emailer._ensure_imap_connection env st)) = None
  end.
Proof.
  unfold Emailer._ensure_imap_connection.
  assert (forall st',
            match snd (Emailer.new_imap_connection env st') with
            | Ok c =>
                Emailer.imap_conn (fst (Emailer.new_imap_connection env st'))
                = Some c
                /\ ((Emailer.imap_conn st = Some c
                     /\ Emailer.imap_noop_r env = Ok true
                     /\ fst (Emailer.new_imap_connection env st') = st)
                    \/ (Emailer.IMAP4_SSL_r env = Ok c
                        /\ Emailer.login_r env = Ok ()
                        /\ exists ok,
                             Emailer.select_inbox_r env = Ok ok
                             /\ Emailer.selected
                                  (fst (Emailer.new_imap_connection env st'))
                                  !! c
                                = if ok then Some Emailer.INBOX else None))
            | Raise e =>
                is_Exception e = true ->
                Emailer.imap_conn (fst (Emailer.new_imap_connection env st'))
                = None
            end) as Hnew.
  { intros st'. pose proof (new_imap_connection_state env st') as H.
    destruct (snd (Emailer.new_imap_connection env st')); [|done].
    destruct H as (? & ?). split; [done | by right]. }
  destruct (Emailer.imap_conn st) as [c|] eqn:Hconn; [|apply Hnew].
  destruct (Emailer.imap_noop_r env) as [[]|e] eqn:Hnoop.
  - simpl. split; [done |]. left. by repeat split.
  - apply Hnew.
  - destruct (is_Exception e) eqn:He; [apply Hnew |]. simpl. congruence.
Qed.

(** The folder [select_drafts_folder] returns, when it is not INBOX, is
    the one [imap_conn] is left with. *)
Lemma select_drafts_folder_selected env imap_conn st st' drafts_folder :
  select_drafts_folder env imap_conn st = (st', Ok drafts_folder) ->
  Emailer.imap_conn st' = Emailer.imap_conn st
  /\ (drafts_folder <> Emailer.INBOX ->
      Emailer.selected st' !! imap_conn = Some drafts_folder).
Proof.
  unfold select_drafts_folder.
  assert (forall e st0,
            Emailer.imap_conn st0 = Emailer.imap_conn st ->
            (if is_Exception e
             then match select_fallback_r env with
                  | Ok ok =>
                      (Emailer.select imap_conn Emailer.INBOX (Ok ok) st0,
                       Ok Emailer.INBOX)
                  | Raise e' =>
                      (Emailer.select imap_conn Emailer.INBOX (Raise e') st0,
                       Raise e')
                  end
             else (st0, Raise e)) = (st', Ok drafts_folder) ->
            Emailer.imap_conn st' = Emailer.imap_conn st
            /\ (drafts_folder <> Emailer.INBOX ->
                Emailer.selected st' !! imap_conn = Some drafts_folder))
    as Hhandler.
  { intros e st0 Hst0. destruct (is_Exception e); [|done].
    destruct (select_fallback_r env); [|done]. by intros [= <- <-]. }
  destruct (select_r env Emailer.GmailDrafts) as [[]|e1].
  { intros [= <- <-]. split; [done |]. intros _. apply lookup_insert_eq. }
  2:{ by apply Hhandler. }
  destruct (select_r env Emailer.Drafts) as [[]|e2].
  { intros [= <- <-]. split; [done |]. intros _. apply lookup_insert_eq. }
  2:{ by apply Hhandler. }
  destruct (select_r env Emailer.GoogleMailDrafts) as [[]|e3].
  { intros [= <- <-]. split; [done |]. intros _. apply lookup_insert_eq. }
  2:{ by apply Hhandler. }
  destruct (select_r env Emailer.INBOX) as [ok|e4].
  { by intros [= <- <-]. }
  by apply Hhandler.
Qed.

(** A draft that [save_draft] saves outside INBOX leaves its folder
    selected on the connection of the [emailer] object. *)
Lemma save_draft_selected env draft_email w :
  let w' := fst (save_draft env draft_email w) in
  drafts w' = drafts w
  \/ exists drafts_folder c,
       drafts w' = (drafts w ++ [(drafts_folder, draft_email)])%list
       /\ Emailer.imap_conn (imap w') = Some c
       /\ (drafts_folder <> Emailer.INBOX ->
           Emailer.selected (imap w') !! c = Some drafts_folder).
Proof.
  unfold save_draft, save_draft_try.
  pose proof (ensure_imap_connection_state (draft_imap env) (imap w)) as Hconn.
  destruct (Emailer._ensure_imap_connection (draft_imap env) (imap w))
    as [st [c|e]]; simpl in Hconn.
  2:{ left. by destruct (is_Exception e). }
  destruct Hconn as [Hc _].
  destruct (select_drafts_folder env c st) as [st1 [drafts_folder|e]] eqn:Hsel.
  2:{ left. by destruct (is_Exception e). }
  apply select_drafts_folder_selected in Hsel as [Hsame Hfolder].
  destruct (append_r env) as [[]|e]; simpl.
  - right. exists drafts_folder, c. split; [done |]. split; [congruence | done].
  - by left.
  - left. by destruct (is_Exception e).
Qed.

(** The same for [respond], which then returns the marker. *)
Lemma respond_saved env thread w :
  let w' := fst (respond env thread w) in
  drafts w' = drafts w
  \/ exists drafts_folder c draft_email,
       drafts w' = (drafts w ++ [(drafts_folder, draft_email)])%list
       /\ snd (respond env thread w) = Ok (Some (draft_marker env))
       /\ outbox w' = outbox w /\ seen w' = seen w
       /\ Emailer.imap_conn (imap w') = Some c
       /\ (drafts_folder <> Emailer.INBOX ->
           Emailer.selected (imap w') !! c = Some drafts_folder).
Proof.
  unfold respond, py_last.
  destruct (last thread) as [most_recent|]; [|by left].
  destruct (agent_r env) as [body_md|e]; [|by left].
  destruct (unsure (lower env body_md)); [by left |].
  destruct (telegram_bot env) as [channel|]; [|by left].
  destruct (TelegramBot.notify_and_wait_for_action channel thread
              (draft_reply env most_recent body_md) (bot w))
    as [b [[result|]|e]]; [by left | | left; by destruct (is_Exception e)].
  pose proof (save_draft_selected env (draft_reply env most_recent body_md)
                (with_bot b w)) as Hsaved.
  pose proof (save_draft_frame env (draft_reply env most_recent body_md)
                (with_bot b w)) as Hframe.
  destruct (save_draft env (draft_reply env most_recent body_md)
              (with_bot b w)) as [w1 [[]|e]]; simpl in Hsaved, Hframe.
  - simpl.
    destruct Hsaved as [Hsame | (drafts_folder & c & Hd & Hc & Hf)];
      [by left | right].
    destruct Hframe as (Hout & Hseen & _).
    by exists drafts_folder, c, (draft_reply env most_recent body_md).
  - destruct Hframe as (_ & _ & _ & _ & _ & Hraise).
    destruct (Hraise e eq_refl) as [He Hsame]. rewrite He. by left.
Qed.

(** What follows [respond] in [handle_thread] does not touch the drafts,
    and touches nothing but the task table after the marker. *)
Lemma handle_thread_drafts env thread most_recent w :
  last thread = Some most_recent ->
  drafts (fst (handle_thread env thread w))
  = drafts (fst (respond (responding env) thread w)).
Proof.
  intros Hlast. unfold handle_thread, py_last, handle_thread_try.
  rewrite Hlast.
  destruct (respond (responding env) thread w) as [w1 [[response|]|e]]; simpl;
    [| done | by destruct (is_Exception e)].
  destruct (String.eqb (id response) "DRAFT_MARKER"); [done |].
  destruct (connect_r env) as [[]|e1]; [|by destruct (is_Exception e1)].
  destruct (send_message_r env) as [[]|e2]; [|by destruct (is_Exception e2)].
  destruct (quit_r env) as [[]|e3]; [|by destruct (is_Exception e3)].
  destruct (store_r env) as [[]|e4]; [done | done |].
  by destruct (is_Exception e4).
Qed.

Lemma handle_thread_after_marker env thread most_recent w :
  last thread = Some most_recent ->
  snd (respond (responding env) thread w)
  = Ok (Some (draft_marker (responding env))) ->
  fst (handle_thread env thread w)
  = with_tasks (release (id most_recent)
                  (active_tasks (fst (respond (responding env) thread w))))
      (fst (respond (responding env) thread w)).
Proof.
  intros Hlast. unfold handle_thread, py_last, handle_thread_try.
  rewrite Hlast.
  destruct (respond (responding env) thread w) as [w1 r]. simpl.
  by intros ->.
Qed.

Lemma handle_thread_saved env thread w :
  let w' := fst (handle_thread env thread w) in
  drafts w' = drafts w
  \/ exists drafts_folder c draft_email,
       drafts w' = (drafts w ++ [(drafts_folder, draft_email)])%list
       /\ outbox w' = outbox w /\ seen w' = seen w
       /\ Emailer.imap_conn (imap w') = Some c
       /\ (drafts_folder <> Emailer.INBOX ->
           Emailer.selected (imap w') !! c = Some drafts_folder).
Proof.
  destruct (last thread) as [most_recent|] eqn:Hlast.
  2:{ left. unfold handle_thread, py_last. by rewrite Hlast. }
  simpl.
  destruct (respond_saved (responding env) thread w)
    as [Hsame | (drafts_folder & c & draft_email & Hd & Hm & Hout & Hseen & Hc & Hf)].
  - left. by rewrite (handle_thread_drafts _ _ _ _ Hlast).
  - right. exists drafts_folder, c, draft_email.
    by rewrite (handle_thread_after_marker _ _ _ _ Hlast Hm).
Qed.

(** The first poll opens connection 0 and selects INBOX on it. *)
Example first_poll_connects :
  process_with_draft_handling (Polls.poll Mailbox.quiet) Polls.started
  = (Polls.idle, Ok ()).
Proof. reflexivity. Qed.

Lemma spawn_tasks_imap unread_threads w :
  imap (fst (spawn_tasks unread_threads w)) = imap w.
Proof.
  revert w. induction unread_threads as [|thread rest IH]; intros w; [done |].
  simpl. destruct (py_last thread); [|done]. by rewrite IH.
Qed.
End connection.

(** X10.  [_ensure_imap_connection] returns a connection only when that
    connection is the one the [emailer] object holds afterwards: the one it
    held before, untouched, whose NOOP was answered OK, or a new one that
    was logged in and asked to select INBOX.  When it raises an
    [Exception] the object holds no connection, so that the next call
    opens a new one. *)
Theorem ensure_imap_connection_holds
    (env : Emailer.imap_env) (st : Emailer.imap_state) :
  match snd (Emailer._ensure_imap_connection env st) with
  | Ok c =>
      Emailer.imap_conn (fst (Emailer._ensure_imap_connection env st)) = Some c
      /\ ((Emailer.imap_conn st = Some c
           /\ Emailer.imap_noop_r env = Ok true
           /\ fst (Emailer._ensure_imap_connection env st) = st)
          \/ (Emailer.IMAP4_SSL_r env = Ok c
              /\ Emailer.login_r env = Ok ()
              /\ exists ok,
                   Emailer.select_inbox_r env = Ok ok
                   /\ Emailer.selected
                        (fst (Emailer._ensure_imap_connection env st)) !! c
                      = if ok then Some Emailer.INBOX else None))
  | Raise e =>
      is_Exception e = true ->
      Emailer.imap_conn (fst (Emailer._ensure_imap_connection env st)) = None
  end.
Proof. apply ensure_imap_connection_state. Qed.

(** X11.  A run of [handle_thread] that saves a draft sends nothing and
    marks nothing, and when the draft went to a folder other than INBOX it
    leaves that folder selected on the connection of the [emailer] object:
    [save_draft] does not select INBOX again. *)
Theorem saved_draft_leaves_folder_selected
    (env : Main.task_env) (email_thread : list Email) (w : Main.world) :
  Main.drafts (fst (Main.handle_thread env email_thread w)) <> Main.drafts w ->
  exists drafts_folder c draft_email,
    Main.drafts (fst (Main.handle_thread env email_thread w))
    = (Main.drafts w ++ [(drafts_folder, draft_email)])%list
    /\ Main.outbox (fst (Main.handle_thread env email_thread w)) = Main.outbox w
    /\ Main.seen (fst (Main.handle_thread env email_thread w)) = Main.seen w
    /\ Emailer.imap_conn (Main.imap (fst (Main.handle_thread env email_thread w)))
       = Some c
    /\ (drafts_folder <> Emailer.INBOX ->
        Emailer.selected (Main.imap (fst (Main.handle_thread env email_thread w)))
          !! c = Some drafts_folder).
Proof.
  intros Hdrafts. by destruct (handle_thread_saved env email_thread w).
Qed.

(** One task saves its draft, another one, on the same connection, then
    sends its reply: the STORE of the second lands in the drafts folder,
    and message 3 of INBOX stays unread. *)
Lemma saved_draft_leaves_folder_selected_witness :
  (exists drafts_folder c draft_email,
     Main.drafts (fst (Main.handle_thread Saved.task [Polls.question] Polls.idle))
     = (Main.drafts Polls.idle ++ [(drafts_folder, draft_email)])%list
     /\ Emailer.imap_conn
          (Main.imap (fst (Main.handle_thread Saved.task [Polls.question]
                             Polls.idle))) = Some c
     /\ (drafts_folder <> Emailer.INBOX ->
         Emailer.selected
           (Main.imap (fst (Main.handle_thread Saved.task [Polls.question]
                              Polls.idle))) !! c = Some drafts_folder))
  /\ Main.seen
       (fst (Main.handle_thread Saved.other_task [Saved.other_question]
               (fst (Main.handle_thread Saved.task [Polls.question]
                       Polls.idle))))
     = [(Some Emailer.GmailDrafts, "3")].
Proof.
  split; [|reflexivity].
  destruct (saved_draft_leaves_folder_selected Saved.task [Polls.question]
              Polls.idle ltac:(vm_compute; discriminate))
    as (drafts_folder & c & draft_email & Hd & _ & _ & Hc & Hf).
  by exists drafts_folder, c, draft_email.
Defined.

(** X12.  A poll that returns, and whose select of INBOX was answered OK,
    leaves INBOX selected on the connection of the [emailer] object,
    whatever was selected on it before. *)
Theorem poll_selects_inbox (c : Main.cycle_env) (w : Main.world) :
  snd (Main.process_with_draft_handling c w) = Ok () ->
  Main.select_unread_r c = Ok true ->
  exists imap_conn,
    Emailer.imap_conn (Main.imap (fst (Main.process_with_draft_handling c w)))
    = Some imap_conn
    /\ Emailer.selected (Main.imap (fst (Main.process_with_draft_handling c w)))
         !! imap_conn = Some Emailer.INBOX.
Proof.
  unfold Main.process_with_draft_handling. intros Hok Hselect.
  pose proof (ensure_imap_connection_state (Main.imap_answers c) (Main.imap w))
    as Hconn.
  destruct (Emailer._ensure_imap_connection (Main.imap_answers c) (Main.imap w))
    as [st [imap_conn|e]]; [|done].
  simpl in Hconn. destruct Hconn as [Hc _].
  rewrite Hselect in Hok |- *.
  destruct (Emailer._get_unread_emails (Main.mail c)) as [unread_threads|e];
    [|done].
  rewrite spawn_tasks_imap. simpl. exists imap_conn.
  split; [done | apply lookup_insert_eq].
Qed.

(** After the draft of one task was saved, the next poll selects INBOX
    again. *)
Lemma poll_selects_inbox_witness :
  exists imap_conn,
    Emailer.imap_conn
      (Main.imap
         (fst (Main.process_with_draft_handling (Polls.poll Mailbox.quiet)
                 (fst (Main.handle_thread Saved.task [Polls.question]
                         Polls.idle))))) = Some imap_conn
    /\ Emailer.selected
         (Main.imap
            (fst (Main.process_with_draft_handling (Polls.poll Mailbox.quiet)
                    (fst (Main.handle_thread Saved.task [Polls.question]
                            Polls.idle))))) !! imap_conn
       = Some Emailer.INBOX.
Proof.
  exact (poll_selects_inbox (Polls.poll Mailbox.quiet)
           (fst (Main.handle_thread Saved.task [Polls.question] Polls.idle))
           eq_refl eq_refl).
Defined.
